(** * Event backend: normalizers, write hooks and query helpers

    A shallow embedding of
    - [src/database/event.model.ts]   (Event schema, [generateSlug],
      [normalizeDate], [normalizeTime], the Event [pre("save")] hook),
    - the Booking model               ([BookingSchema.pre("save")]),
    - the server action               ([getSimilarEventsBySlug]),
    - the route handler               ([GET /api/events/[slug]]).

    JavaScript strings are sequences of UTF-16 code units.  The development
    covers the strings all of whose code units are below 256 (ISO-8859-1):
    a code unit is an [ascii], a string is a [string]. *)

From Stdlib Require Import ZArith NArith List Bool Lia.
From Stdlib Require Import Strings.Ascii Strings.String Numbers.DecimalString.
Import ListNotations.

Local Open Scope string_scope.

(** ** JavaScript strings *)

Module JsString.

Definition code (c : ascii) : N := N_of_ascii c.

Definition in_range (lo hi : N) (c : ascii) : bool :=
  (lo <=? code c)%N && (code c <=? hi)%N.

(** [\d] *)
Definition is_digit (c : ascii) : bool := in_range 48 57 c.

(** [a-z] *)
Definition is_lower_az (c : ascii) : bool := in_range 97 122 c.

(** [\s], and what [trim] removes: WhiteSpace and LineTerminator of
    ECMA-262 below U+0100, that is TAB, LF, VT, FF, CR, SP and NBSP. *)
Definition is_white (c : ascii) : bool :=
  in_range 9 13 c || (code c =? 32)%N || (code c =? 160)%N.

Definition is_hyphen (c : ascii) : bool := (code c =? 45)%N.

(** [String.prototype.toLowerCase] on one code unit below U+0100: A-Z and
    the capital letters U+00C0..U+00DE (U+00D7, the multiplication sign,
    is no letter) move up by 32. *)
Definition lower_char (c : ascii) : ascii :=
  if in_range 65 90 c || (in_range 192 222 c && negb (code c =? 215)%N)
  then ascii_of_N (code c + 32)
  else c.

Fixpoint toLowerCase (s : string) : string :=
  match s with
  | EmptyString => EmptyString
  | String c r => String (lower_char c) (toLowerCase r)
  end.

(** [String.prototype.toUpperCase]: a-z and U+00E0..U+00FE (but the
    division sign U+00F7) move down by 32 and U+00DF becomes SS.  The upper
    cases of U+00B5 and U+00FF lie above U+00FF; they are kept as they
    are here, and the code never upper-cases them. *)
Fixpoint toUpperCase (s : string) : string :=
  match s with
  | EmptyString => EmptyString
  | String c r =>
      if (code c =? 223)%N then String "S" (String "S" (toUpperCase r))
      else if in_range 97 122 c
              || (in_range 224 254 c && negb (code c =? 247)%N)
      then String (ascii_of_N (code c - 32)) (toUpperCase r)
      else String c (toUpperCase r)
  end.

Fixpoint trimStart (s : string) : string :=
  match s with
  | EmptyString => EmptyString
  | String c r => if is_white c then trimStart r else s
  end.

Definition is_empty (s : string) : bool :=
  match s with EmptyString => true | _ => false end.

Fixpoint trimEnd (s : string) : string :=
  match s with
  | EmptyString => EmptyString
  | String c r =>
      let r' := trimEnd r in
      if is_white c && is_empty r' then EmptyString else String c r'
  end.

(** [String.prototype.trim] *)
Definition trim (s : string) : string := trimEnd (trimStart s).

(** [s.replace(/[cls]/g, "")]: every code unit of the class is dropped. *)
Fixpoint remove_chars (cls : ascii -> bool) (s : string) : string :=
  match s with
  | EmptyString => EmptyString
  | String c r =>
      if cls c then remove_chars cls r else String c (remove_chars cls r)
  end.

(** [s.replace(/[cls]+/g, rep)]: every maximal run of code units of the
    class is replaced by one copy of [rep].  [in_run] tells that the code
    unit before the current one belonged to the run being replaced. *)
Fixpoint replace_runs (cls : ascii -> bool) (rep : string) (in_run : bool)
    (s : string) : string :=
  match s with
  | EmptyString => EmptyString
  | String c r =>
      if cls c
      then (if in_run then replace_runs cls rep true r
            else rep ++ replace_runs cls rep true r)
      else String c (replace_runs cls rep false r)
  end.

(** The effect of the alternative [-$] of [/^-|-$/g]: a hyphen that is the
    last code unit is dropped. *)
Fixpoint drop_final_hyphen (s : string) : string :=
  match s with
  | EmptyString => EmptyString
  | String c r =>
      if is_hyphen c && is_empty r then EmptyString
      else String c (drop_final_hyphen r)
  end.

(** [s.replace(/^-|-$/g, "")]: the scan first meets [^-] at index 0, then
    goes on after it, where only [-$] can still match. *)
Definition strip_edge_hyphen (s : string) : string :=
  match s with
  | EmptyString => EmptyString
  | String c r =>
      if is_hyphen c then drop_final_hyphen r else drop_final_hyphen s
  end.

(** Every code unit of the string is of the class. *)
Fixpoint all (p : ascii -> bool) (s : string) : bool :=
  match s with
  | EmptyString => true
  | String c r => p c && all p r
  end.

(** [s.slice(0, n)] and [s.slice(n)] *)
Fixpoint take (n : nat) (s : string) : string :=
  match n, s with
  | S n', String c r => String c (take n' r)
  | _, _ => EmptyString
  end.

Fixpoint drop (n : nat) (s : string) : string :=
  match n, s with
  | S n', String _ r => drop n' r
  | _, _ => s
  end.

(** Canonicalize of a regular expression with the flag [i] and without the
    flag [u]: the upper case of the code unit when that is one code unit
    (so U+00DF stays). *)
Definition canonicalize (c : ascii) : ascii :=
  if in_range 97 122 c || (in_range 224 254 c && negb (code c =? 247)%N)
  then ascii_of_N (code c - 32)
  else c.

(** [s.includes(t)] *)
Fixpoint includes (s t : string) : bool :=
  prefix t s ||
  match s with
  | EmptyString => false
  | String _ r => includes r t
  end.

(** [s.padStart(n, "0")] *)
Definition padStart0 (n : nat) (s : string) : string :=
  string_of_list_ascii (repeat "0"%char (n - length s)) ++ s.

(** [s.split(sep)[0]] for a one-unit separator: the text before the first
    occurrence of [sep], the whole of [s] when there is none. *)
Fixpoint before_first (sep : ascii) (s : string) : string :=
  match s with
  | EmptyString => EmptyString
  | String c r => if Ascii.eqb c sep then EmptyString
                  else String c (before_first sep r)
  end.

End JsString.

Import JsString.

(** ** The identifier normalizer: [generateSlug] (event.model.ts:129-137) *)

Module Slug.

(** [[^a-z0-9\s-]] *)
Definition special (c : ascii) : bool :=
  negb (is_lower_az c || is_digit c || is_white c || is_hyphen c).

Definition generateSlug (title : string) : string :=
  let s1 := trim (toLowerCase title) in
  let s2 := remove_chars special s1 in          (* .replace(/[^a-z0-9\s-]/g, "") *)
  let s3 := replace_runs is_white "-" false s2 in  (* .replace(/\s+/g, "-") *)
  let s4 := replace_runs is_hyphen "-" false s3 in (* .replace(/-+/g, "-") *)
  strip_edge_hyphen s4.                          (* .replace(/^-|-$/g, "") *)

End Slug.

Import Slug.

(** ** JavaScript values, numbers and completions *)

Module Js.

(** A value that is a string or [undefined] (an unmatched capture group, an
    index outside an array). *)
Definition value := option string.

Definition undefined : value := None.

(** ToString, as a template literal [`${v}`] applies it. *)
Definition ToString (v : value) : string :=
  match v with
  | Some s => s
  | None => "undefined"
  end.

(** ToBoolean: [undefined] and the empty string are falsy. *)
Definition truthy (v : value) : bool :=
  match v with
  | Some s => negb (is_empty s)
  | None => false
  end.

(** [v === "lit"] *)
Definition strict_eq_str (v : value) (lit : string) : bool :=
  match v with
  | Some s => String.eqb s lit
  | None => false
  end.

(** [a[i]]: the element, [undefined] outside the array. *)
Definition index (a : list value) (i : nat) : value := nth i a undefined.

(** [v?.toUpperCase()] *)
Definition opt_toUpperCase (v : value) : value := option_map toUpperCase v.

(** The numbers the code computes with: integers and NaN. *)
Inductive number : Type :=
| NaN
| Num (z : Z).

(** [a < b], [a > b], [a !== b], [a === b], [a + b]: every comparison with
    NaN is false, NaN differs from everything. *)
Definition num_lt (a b : number) : bool :=
  match a, b with
  | Num x, Num y => (x <? y)%Z
  | _, _ => false
  end.

Definition num_gt (a b : number) : bool := num_lt b a.

Definition num_eq (a b : number) : bool :=
  match a, b with
  | Num x, Num y => (x =? y)%Z
  | _, _ => false
  end.

Definition num_add (a b : number) : number :=
  match a, b with
  | Num x, Num y => Num (x + y)
  | _, _ => NaN
  end.

(** [Number.prototype.toString()] *)
Definition num_toString (a : number) : string :=
  match a with
  | NaN => "NaN"
  | Num z => NilZero.string_of_int (Z.to_int z)
  end.

Definition digit_value (radix : Z) (c : ascii) : option Z :=
  let n := Z.of_N (code c) in
  let v := if is_digit c then Some (n - 48)%Z
           else if in_range 97 122 c then Some (n - 87)%Z
           else if in_range 65 90 c then Some (n - 55)%Z
           else None in
  match v with
  | Some d => if (d <? radix)%Z then Some d else None
  | None => None
  end.

(** The longest prefix of digits of the radix, read as a number; [None]
    when the first code unit is no digit. *)
Fixpoint read_digits (radix : Z) (acc : option Z) (s : string) : option Z :=
  match s with
  | EmptyString => acc
  | String c r =>
      match digit_value radix c with
      | Some d =>
          read_digits radix
            (Some (match acc with Some a => a * radix + d | None => d end)%Z) r
      | None => acc
      end
  end.

Definition strip_hex_prefix (s : string) : option string :=
  match s with
  | String "0" (String "x" r) => Some r
  | String "0" (String "X" r) => Some r
  | _ => None
  end.

Definition parse_unsigned (s : string) : option Z :=
  match strip_hex_prefix s with
  | Some r => read_digits 16 None r
  | None => read_digits 10 None s
  end.

(** [parseInt(v)] without a radix: leading white space is skipped, a sign
    is read, then the longest prefix of digits (hexadecimal after [0x]);
    NaN when there is none.  The integer is exact here; JavaScript rounds
    it to a double above 2^53. *)
Definition parseInt (v : value) : number :=
  let s := trimStart (ToString v) in
  let '(neg, body) :=
    match s with
    | String "-" r => (true, r)
    | String "+" r => (false, r)
    | _ => (false, s)
    end in
  match parse_unsigned body with
  | Some n => Num (if neg then - n else n)
  | None => NaN
  end.

(** What a [throw] carries: an [Error] object with its [name] and
    [message], or a value that is no [Error]. *)
Inductive thrown : Type :=
| JsError (name message : string)
| NonError.

(** [new Error(msg)] *)
Definition new_Error (msg : string) : thrown := JsError "Error" msg.

Inductive completion (A : Type) : Type :=
| Normal (a : A)
| Abrupt (e : thrown).

Arguments Normal {A} a.
Arguments Abrupt {A} e.

(** Sequencing: an abrupt completion ends the computation. *)
Definition and_then {A B} (c : completion A) (k : A -> completion B)
  : completion B :=
  match c with
  | Normal a => k a
  | Abrupt e => Abrupt e
  end.

End Js.

Import Js.

Declare Scope completion_scope.
Delimit Scope completion_scope with completion.
Notation "x <- c ;; k" := (and_then c (fun x => k))
  (at level 61, c at next level, right associativity) : completion_scope.

(** ** The time normalizer: [normalizeTime] (event.model.ts:147-182) *)

Module Time.

(** [(AM|PM)] under the flag [i]. *)
Definition is_am_pm (s : string) : bool :=
  match s with
  | String c1 (String c2 EmptyString) =>
      (Ascii.eqb (canonicalize c1) "A" || Ascii.eqb (canonicalize c1) "P")
      && Ascii.eqb (canonicalize c2) "M"
  | _ => false
  end.

(** [\s*(AM|PM)?$] on the rest of the input.  [\s*] is greedy; giving white
    space back cannot help, since neither [(AM|PM)] nor [$] accepts a
    white-space unit.  The result is the capture of group 2. *)
Definition match_suffix (rest : string) : option value :=
  let r := trimStart rest in
  if is_am_pm r then Some (Some r)
  else if is_empty r then Some undefined
  else None.

(** [^(\d{n}:\d{2})\s*(AM|PM)?$] for a fixed number [n] of hour digits:
    the array [[match[0]; match[1]; match[2]]]. *)
Definition match_with (n : nat) (s : string) : option (list value) :=
  let hh := take n s in
  let colon := take 1 (drop n s) in
  let mm := take 2 (drop (n + 1) s) in
  let rest := drop (n + 3) s in
  if (String.length hh =? n)%nat && all is_digit hh
     && String.eqb colon ":"
     && (String.length mm =? 2)%nat && all is_digit mm
  then match match_suffix rest with
       | Some g2 => Some [Some s; Some (hh ++ ":" ++ mm); g2]
       | None => None
       end
  else None.

(** [timeRegex = /^(\d{1,2}:\d{2})\s*(AM|PM)?$/i]: the result of
    [s.match(timeRegex)], [None] for [null].  The regex has two capture
    groups.  [\d{1,2}] is greedy: two digits are tried first, then one. *)
Definition timeRegex_match (s : string) : option (list value) :=
  match match_with 2 s with
  | Some m => Some m
  | None => match_with 1 s
  end.

Definition invalid_time_format : thrown :=
  new_Error "Invalid time format, expected HH:MM with optional AM/PM".

Definition time_out_of_range : thrown :=
  new_Error "Time must be between 00:00 and 23:59".

Definition normalizeTime (timeStr : string) : completion string :=
  match timeRegex_match (trim timeStr) with
  | None => Abrupt invalid_time_format
  | Some m =>
      let hours := parseInt (index m 1) in
      let minutes := index m 2 in
      let period := opt_toUpperCase (index m 4) in
      let hours :=
        if truthy period then
          let hours :=
            if strict_eq_str period "PM" && negb (num_eq hours (Num 12))
            then num_add hours (Num 12) else hours in
          if strict_eq_str period "AM" && num_eq hours (Num 12)
          then Num 0 else hours
        else hours in
      if num_lt hours (Num 0) || num_gt hours (Num 23)
         || num_lt (parseInt minutes) (Num 0)
         || num_gt (parseInt minutes) (Num 59)
      then Abrupt time_out_of_range
      else Normal (padStart0 2 (num_toString hours) ++ ":" ++ ToString minutes)
  end.

End Time.

Import Time.

(** ** Dates: [Date.parse], [toISOString] and [normalizeDate]
       (event.model.ts:139-145) *)

Module JsDate.

Local Open Scope Z_scope.

Definition msPerDay : Z := 86400000.

(** Days since 1970-01-01 of a day of the proleptic Gregorian calendar
    (MakeDay), months counted from 1. *)
Definition days_from_civil (y m d : Z) : Z :=
  let y' := if m <=? 2 then y - 1 else y in
  let era := y' / 400 in
  let yoe := y' - era * 400 in
  let doy := (153 * (if m >? 2 then m - 3 else m + 9) + 2) / 5 + d - 1 in
  let doe := yoe * 365 + yoe / 4 - yoe / 100 + doy in
  era * 146097 + doe - 719468.

(** Year, month (from 1) and day of the month of a day number
    (YearFromTime, MonthFromTime, DateFromTime). *)
Definition civil_from_days (z : Z) : Z * Z * Z :=
  let z := z + 719468 in
  let era := z / 146097 in
  let doe := z - era * 146097 in
  let yoe := (doe - doe / 1460 + doe / 36524 - doe / 146096) / 365 in
  let doy := doe - (365 * yoe + yoe / 4 - yoe / 100) in
  let mp := (5 * doy + 2) / 153 in
  let d := doy - (153 * mp + 2) / 5 + 1 in
  let m := if mp <? 10 then mp + 3 else mp - 9 in
  (yoe + era * 400 + (if m <=? 2 then 1 else 0), m, d).

Definition is_leap (y : Z) : bool :=
  ((y mod 4 =? 0) && negb (y mod 100 =? 0)) || (y mod 400 =? 0).

Definition days_in_month (y m : Z) : Z :=
  if m =? 2 then (if is_leap y then 29 else 28)
  else if (m =? 4) || (m =? 6) || (m =? 9) || (m =? 11) then 30
  else 31.

(** MakeDate(MakeDay(y, m, d), MakeTime(h, mi, s, ms)) *)
Definition make_time_value (y m d h mi s ms : Z) : Z :=
  days_from_civil y m d * msPerDay + ((h * 60 + mi) * 60 + s) * 1000 + ms.

(** TimeClip: a time value lies within 8.64e15 ms of the epoch. *)
Definition TimeClip (t : Z) : option Z :=
  if Z.abs t <=? 8640000000000000 then Some t else None.

(** What ECMA-262 leaves to the implementation: the offset of local time
    from UTC (in ms, at a local time value) and the parser [Date.parse]
    falls back to for a string outside the Date Time String Format. *)
Record host : Type := {
  local_offset : Z -> Z;
  legacy_parse : string -> option Z
}.

(** *** The Date Time String Format *)

Fixpoint digits (n : nat) (acc : Z) (s : string) : option (Z * string) :=
  match n with
  | O => Some (acc, s)
  | S n' =>
      match s with
      | String c r =>
          if is_digit c
          then digits n' (acc * 10 + (Z.of_N (code c) - 48)) r
          else None
      | EmptyString => None
      end
  end.

(** [YYYY], or the expanded [+YYYYYY] and [-YYYYYY] ([-000000] is no
    year). *)
Definition parse_year (s : string) : option (Z * string) :=
  match s with
  | String "+" r => digits 6 0 r
  | String "-" r =>
      match digits 6 0 r with
      | Some (y, r') => if y =? 0 then None else Some (- y, r')
      | None => None
      end
  | _ => digits 4 0 s
  end.

(** [-MM] and [-DD], each optional: month and day default to 1. *)
Definition parse_month_day (s : string) : option (Z * Z * string) :=
  match s with
  | String "-" r =>
      match digits 2 0 r with
      | Some (m, String "-" r') =>
          match digits 2 0 r' with
          | Some (d, r'') => Some (m, d, r'')
          | None => None
          end
      | Some (m, r') => Some (m, 1, r')
      | None => None
      end
  | _ => Some (1, 1, s)
  end.

(** [HH:mm], [HH:mm:ss] or [HH:mm:ss.sss] *)
Definition parse_clock (s : string) : option (Z * Z * Z * Z * string) :=
  match digits 2 0 s with
  | Some (h, String ":" r) =>
      match digits 2 0 r with
      | Some (mi, String ":" r') =>
          match digits 2 0 r' with
          | Some (sec, String "." r'') =>
              match digits 3 0 r'' with
              | Some (ms, r3) => Some (h, mi, sec, ms, r3)
              | None => None
              end
          | Some (sec, r'') => Some (h, mi, sec, 0, r'')
          | None => None
          end
      | Some (mi, r') => Some (h, mi, 0, 0, r')
      | None => None
      end
  | _ => None
  end.

(** The UTC offset: [Z], [+HH:mm] or [-HH:mm], in ms; [None] inside when
    there is none, and the time is local. *)
Definition parse_offset (s : string) : option (option Z) :=
  match s with
  | EmptyString => Some None
  | String "Z" EmptyString => Some (Some 0)
  | String sg r =>
      if Ascii.eqb sg "+" || Ascii.eqb sg "-" then
        match digits 2 0 r with
        | Some (h, String ":" r') =>
            match digits 2 0 r' with
            | Some (mi, EmptyString) =>
                if (h <=? 23) && (mi <=? 59) then
                  let off := (h * 60 + mi) * 60000 in
                  Some (Some (if Ascii.eqb sg "-" then - off else off))
                else None
            | _ => None
            end
        | _ => None
        end
      else None
  end.

Definition legal_date (y m d : Z) : bool :=
  (1 <=? m) && (m <=? 12) && (1 <=? d) && (d <=? days_in_month y m).

Definition legal_clock (h mi s : Z) (ms : Z) : bool :=
  ((h <=? 23) && (mi <=? 59) && (s <=? 59))
  || ((h =? 24) && (mi =? 0) && (s =? 0) && (ms =? 0)).

(** The time value of a string of the Date Time String Format; [None] for
    a string that is no instance of the format (wrong syntax or an
    element out of bounds).  A date alone is UTC; a date and a time
    without an offset are local time. *)
Definition parse_iso (h : host) (s : string) : option Z :=
  match parse_year s with
  | None => None
  | Some (y, r) =>
      match parse_month_day r with
      | None => None
      | Some (m, d, r') =>
          if legal_date y m d then
            match r' with
            | EmptyString => Some (make_time_value y m d 0 0 0 0)
            | String "T" r'' =>
                match parse_clock r'' with
                | Some (hh, mi, sec, ms, r3) =>
                    if legal_clock hh mi sec ms then
                      let t := make_time_value y m d hh mi sec ms in
                      match parse_offset r3 with
                      | Some (Some off) => Some (t - off)
                      | Some None => Some (t - local_offset h t)
                      | None => None
                      end
                    else None
                | None => None
                end
            | _ => None
            end
          else None
      end
  end.

(** Some code unit of the string is a decimal digit. *)
Definition has_digit (s : string) : bool :=
  negb (all (fun c => negb (is_digit c)) s).

(** [Date.parse(s)], the time value of [new Date(s)]; [None] is NaN.  A
    string outside the Date Time String Format goes to the fallback of the
    host.  Unrecognizable strings give NaN (ECMA-262, Date.parse); a string
    without a decimal digit names no day and no year and is unrecognizable
    to every fallback, so the host is asked only about strings that hold a
    digit. *)
Definition Date_parse (h : host) (s : string) : option Z :=
  match parse_iso h s with
  | Some t => TimeClip t
  | None =>
      if has_digit s then
        match legacy_parse h s with
        | Some t => TimeClip t
        | None => None
        end
      else None
  end.

(** *** [Date.prototype.toISOString] *)

Definition pad (n : nat) (z : Z) : string :=
  padStart0 n (NilZero.string_of_uint (N.to_uint (Z.to_N z))).

(** Four digits for the years 0 to 9999, a sign and six digits outside. *)
Definition year_string (y : Z) : string :=
  if (0 <=? y) && (y <=? 9999) then pad 4 y
  else if y <? 0 then "-" ++ pad 6 (- y)
  else "+" ++ pad 6 y.

Definition utc_date_string (t : Z) : string :=
  let '(y, m, d) := civil_from_days (t / msPerDay) in
  year_string y ++ "-" ++ pad 2 m ++ "-" ++ pad 2 d.

Definition utc_clock_string (t : Z) : string :=
  let ms := t mod msPerDay in
  pad 2 (ms / 3600000) ++ ":" ++ pad 2 (ms / 60000 mod 60) ++ ":"
  ++ pad 2 (ms / 1000 mod 60) ++ "." ++ pad 3 (ms mod 1000).

Definition toISOString (t : Z) : string :=
  utc_date_string t ++ "T" ++ utc_clock_string t ++ "Z".

Definition invalid_date_format : thrown := new_Error "Invalid date format".

Definition normalizeDate (h : host) (dateStr : string) : completion string :=
  match Date_parse h dateStr with
  | None => Abrupt invalid_date_format            (* isNaN(date.getTime()) *)
  | Some t => Normal (before_first "T" (toISOString t))
  end.

End JsDate.

Import JsDate.

(** *** A host: V8 in a zone with a fixed offset

    The fallback of [Date.parse] in V8 (SpiderMonkey and JavaScriptCore
    agree on this form) reads [Month D, YYYY] as midnight of that day in
    local time; a month is recognised by its first three letters.  Of the
    fallback only this form is modelled.  V8 reads further forms (the day
    before the month, a day past the end of its month carried over into
    the next), which are NaN here: the host serves as an instance at
    strings of the form above, and the statements about every host do not
    depend on it. *)

Module V8.

Local Open Scope Z_scope.

Fixpoint span (p : ascii -> bool) (s : string) : string * string :=
  match s with
  | EmptyString => (EmptyString, EmptyString)
  | String c r =>
      if p c then let '(a, b) := span p r in (String c a, b)
      else (EmptyString, s)
  end.

Definition is_letter (c : ascii) : bool :=
  in_range 65 90 c || in_range 97 122 c.

Definition month_names : list (string * Z) :=
  [("jan", 1); ("feb", 2); ("mar", 3); ("apr", 4); ("may", 5); ("jun", 6);
   ("jul", 7); ("aug", 8); ("sep", 9); ("oct", 10); ("nov", 11); ("dec", 12)].

Definition month_of_word (w : string) : option Z :=
  let key := toLowerCase (substring 0 3 w) in
  option_map snd (find (fun e => String.eqb (fst e) key) month_names).

Definition read_number (s : string) : option Z :=
  match s with
  | EmptyString => None
  | _ => read_digits 10 None s
  end.

Definition month_day_year (offset : Z) (s : string) : option Z :=
  let '(w, r1) := span is_letter (trim s) in
  let '(ds, r2) := span is_digit (trimStart r1) in
  let r3 := match r2 with String "," r => r | _ => r2 end in
  let '(ys, r4) := span is_digit (trimStart r3) in
  match month_of_word w, read_number ds, read_number ys with
  | Some m, Some d, Some y =>
      if is_empty r4 && (String.length ys =? 4)%nat && legal_date y m d
      then Some (make_time_value y m d 0 0 0 0 - offset)
      else None
  | _, _, _ => None
  end.

(** The host whose local time is [offset] ms ahead of UTC all year. *)
Definition fixed_zone (offset : Z) : host :=
  {| local_offset := fun _ => offset;
     legacy_parse := month_day_year offset |}.

End V8.

(** ** The Event schema and its [pre("save")] hook
       (event.model.ts:3-127) *)

Module EventModel.

(** [IEvent], with the types the interface declares: every path but
    [agenda] and [tags] is a [string].  [required] rejects the empty string
    and the empty array as it rejects a path that is not set.  A document
    built without a slug holds the empty string there until the hook
    assigns one; the statements about the hook hold whatever slug the
    document holds before.  The events of a collection are events written
    through [save], which all carry a slug.  The time stamps, which
    Mongoose manages, are left out. *)
Record IEvent : Type := {
  _id : string;
  title : string;
  slug : string;
  description : string;
  overview : string;
  image : string;
  venue : string;
  location : string;
  date : string;
  time : string;
  mode : string;
  audience : string;
  agenda : list string;
  organizer : string;
  tags : list string
}.

(** A Mongoose document: the values, [isNew] and the modified paths. *)
Record document : Type := {
  doc : IEvent;
  isNew : bool;
  modifiedPaths : list string
}.

Definition isModified (d : document) (path : string) : bool :=
  existsb (String.eqb path) (modifiedPaths d).

(** The setters of the schema: [trim: true] on [title], [lowercase: true]
    and [trim: true] on [slug]. *)
Definition cast_title (v : string) : string := trim v.
Definition cast_slug (v : string) : string := trim (toLowerCase v).

Definition set_slug (v : string) (e : IEvent) : IEvent :=
  {| _id := _id e; title := title e; slug := cast_slug v;
     description := description e; overview := overview e;
     image := image e; venue := venue e; location := location e;
     date := date e; time := time e; mode := mode e;
     audience := audience e; agenda := agenda e;
     organizer := organizer e; tags := tags e |}.

Definition set_date (v : string) (e : IEvent) : IEvent :=
  {| _id := _id e; title := title e; slug := slug e;
     description := description e; overview := overview e;
     image := image e; venue := venue e; location := location e;
     date := v; time := time e; mode := mode e;
     audience := audience e; agenda := agenda e;
     organizer := organizer e; tags := tags e |}.

Definition set_time (v : string) (e : IEvent) : IEvent :=
  {| _id := _id e; title := title e; slug := slug e;
     description := description e; overview := overview e;
     image := image e; venue := venue e; location := location e;
     date := date e; time := v; mode := mode e;
     audience := audience e; agenda := agenda e;
     organizer := organizer e; tags := tags e |}.

Definition changed (old new : string) : bool := negb (String.eqb old new).

(** The modified paths after an assignment to [path]: Mongoose marks the
    path when the document is new, when the path is modified already, or
    when the value assigned differs from the value held. *)
Definition mark (path : string) (differs : bool) (d : document)
  : list string :=
  if isModified d path then modifiedPaths d
  else if isNew d || differs then (modifiedPaths d ++ [path])%list
  else modifiedPaths d.

(** [event.slug = v], [event.date = v] and [event.time = v] on a document:
    the value goes through the setters of the path and the path is
    marked. *)
Definition assign_slug (v : string) (d : document) : document :=
  let e := set_slug v (doc d) in
  {| doc := e; isNew := isNew d;
     modifiedPaths := mark "slug" (changed (slug (doc d)) (slug e)) d |}.

Definition assign_date (v : string) (d : document) : document :=
  {| doc := set_date v (doc d); isNew := isNew d;
     modifiedPaths := mark "date" (changed (date (doc d)) v) d |}.

Definition assign_time (v : string) (d : document) : document :=
  {| doc := set_time v (doc d); isNew := isNew d;
     modifiedPaths := mark "time" (changed (time (doc d)) v) d |}.

(** *** Field validation

    One message for each path that fails, that of its first failing
    validator; [required] comes first. *)

Definition required (msg : string) (v : string) : list string :=
  if is_empty v then [msg] else [].

Definition required_max (msg : string) (n : nat) (msg_max : string)
    (v : string) : list string :=
  if is_empty v then [msg]
  else if (n <? String.length v)%nat then [msg_max] else [].

Definition mode_values : list string := ["online"; "offline"; "hybrid"].

Definition check_mode (v : string) : list string :=
  if is_empty v then ["Mode is required"]
  else if existsb (String.eqb v) mode_values then []
  else ["Mode must be either online, offline, or hybrid"].

(** [validator: (v) => v.length > 0] *)
Definition check_nonempty (msg : string) (v : list string) : list string :=
  if (0 <? List.length v)%nat then [] else [msg].

(** The schema gives [slug] no validator. *)
Definition validate (e : IEvent) : list string :=
  required_max "Title is required" 100
    "Title must be less than 100 characters" (title e)
  ++ required_max "Description is required" 1000
       "Description must be less than 1000 characters" (description e)
  ++ required_max "Overview is required" 500
       "Overview must be less than 500 characters" (overview e)
  ++ required "Image URL is required" (image e)
  ++ required "Venue is required" (venue e)
  ++ required "Location is required" (location e)
  ++ required "Date is required" (date e)
  ++ required "Time is required" (time e)
  ++ check_mode (mode e)
  ++ required "Audience is required" (audience e)
  ++ check_nonempty "Agenda must have at least one item" (agenda e)
  ++ required "Organizer is required" (organizer e)
  ++ check_nonempty "There must be at least one tag" (tags e).

(** *** [EventSchema.pre("save", ...)] *)

Definition pre_save (h : host) (event : document) : completion document :=
  let event :=
    if isModified event "title" || isNew event
    then assign_slug (generateSlug (title (doc event))) event
    else event in
  (event <- (if isModified event "date"
             then v <- normalizeDate h (date (doc event)) ;;
                  Normal (assign_date v event)
             else Normal event) ;;
   event <- (if isModified event "time"
             then v <- normalizeTime (time (doc event)) ;;
                  Normal (assign_time v event)
             else Normal event) ;;
   Normal event)%completion.                                  (* next() *)

(** [document.save()] up to the storage call: Mongoose validates first,
    then runs the [pre("save")] hook; the result is the document handed to
    the collection. *)
Definition save (h : host) (d : document) : completion document :=
  match validate (doc d) with
  | [] => pre_save h d
  | msg :: more =>
      Abrupt (JsError "ValidationError" (String.concat ", " (msg :: more)))
  end.

End EventModel.

Import EventModel.

(** ** Storage: the collaborators [connectDB] and the [Event] model

    Every call on the storage is logged; a call either answers from the
    collection or throws what the world says it throws. *)

Module Storage.

Inductive query : Type :=
| FindOneBySlug (slug : string)                  (* Event.findOne({ slug }) *)
| FindById (id : string)                         (* Event.findById(id) *)
| FindSimilar (id : string) (tags : list string).
    (* Event.find({ _id: { $ne: id }, tags: { $in: tags } }) *)

Inductive op : Type :=
| Connect                                        (* connectDB() *)
| Query (q : query)
| ConsoleError (e : thrown).                     (* console.error(..., e) *)

(** The world a request runs in. *)
Record world : Type := {
  NODE_ENV : string;
  connect_failure : option thrown;       (* what connectDB() rejects with *)
  events : list IEvent;                  (* the Event collection *)
  query_failure : query -> option thrown
    (* what a query rejects with: storage unavailable, malformed id *)
}.

(** Computations that log their storage calls and may throw. *)
Definition M (A : Type) : Type := list op -> completion A * list op.

Definition ret {A} (a : A) : M A := fun tr => (Normal a, tr).

Definition throw {A} (e : thrown) : M A := fun tr => (Abrupt e, tr).

Definition bind {A B} (m : M A) (k : A -> M B) : M B :=
  fun tr =>
    match m tr with
    | (Normal a, tr') => k a tr'
    | (Abrupt e, tr') => (Abrupt e, tr')
    end.

(** [try { body } catch (e) { handler }] *)
Definition try_catch {A} (body : M A) (handler : thrown -> M A) : M A :=
  fun tr =>
    match body tr with
    | (Normal a, tr') => (Normal a, tr')
    | (Abrupt e, tr') => handler e tr'
    end.

Definition log (o : op) : M unit := fun tr => (Normal tt, (tr ++ [o])%list).

Definition of_failure {A} (f : option thrown) (a : A) : M A :=
  match f with
  | Some e => throw e
  | None => ret a
  end.

Definition run {A} (m : M A) : completion A * list op := m [].

End Storage.

Import Storage.

Declare Scope eff_scope.
Delimit Scope eff_scope with eff.
Notation "x <- m ;; k" := (bind m (fun x => k))
  (at level 61, m at next level, right associativity) : eff_scope.
Notation "m ;;; k" := (bind m (fun _ => k))
  (at level 61, right associativity) : eff_scope.

Module Db.

Local Open Scope eff_scope.

(** Modelled from the spec: [connectDB] of [lib/mongodb], which is not
    among the sources.  The storage connection is a process-wide resource
    with lazy initialization; the call completes, or fails with a
    connection or configuration error. *)
Definition connectDB (w : world) : M unit :=
  log Connect ;;; of_failure (connect_failure w) tt.

(** A query on the [Event] model of Mongoose: it answers from the
    collection, or rejects. *)
Definition ask {A} (w : world) (q : query) (answer : A) : M A :=
  log (Query q) ;;; of_failure (query_failure w q) answer.

(** [tags: { $in: wanted }]: some element of the array field is among the
    wanted ones. *)
Definition tags_in (wanted : list string) (e : IEvent) : bool :=
  existsb (fun t => existsb (String.eqb t) wanted) (tags e).

(** [Event.findOne({ slug: s })].  Mongoose casts the filter with the
    schema: the value given for [slug] goes through the setters of the path
    ([lowercase], [trim]) before it is sent and compared. *)
Definition findOne_slug (w : world) (s : string) : M (option IEvent) :=
  let s := cast_slug s in
  ask w (FindOneBySlug s)
    (find (fun e => String.eqb (slug e) s) (events w)).

Definition findById (w : world) (id : string) : M (option IEvent) :=
  ask w (FindById id) (find (fun e => String.eqb (_id e) id) (events w)).

Definition find_similar (w : world) (id : string) (wanted : list string)
  : M (list IEvent) :=
  ask w (FindSimilar id wanted)
    (filter (fun e => negb (String.eqb (_id e) id) && tags_in wanted e)
       (events w)).

End Db.

Import Db.

(** ** The Booking schema and its [pre("save")] hook *)

Module BookingModel.

Local Open Scope eff_scope.

(** [IBooking]; the ObjectId is held by its hexadecimal rendering, which
    is what a template literal prints. *)
Record IBooking : Type := {
  eventId : string;
  email : string
}.

Record document : Type := {
  doc : IBooking;
  modifiedPaths : list string
}.

Definition isModified (d : document) (path : string) : bool :=
  existsb (String.eqb path) (modifiedPaths d).

(** How the hook ends: [next()] or [next(error)]. *)
Inductive next_call : Type :=
| Next
| NextError (e : thrown).

Definition event_missing (id : string) : thrown :=
  JsError "ValidationError" ("Event with ID " ++ id ++ " does not exist").

Definition lookup_failed : thrown :=
  JsError "ValidationError" "Invalid event ID format or database error".

(** [BookingSchema.pre("save", ...)].  [return next(error)] inside the
    [try] is a call, not a throw: the [catch] does not see it. *)
Definition pre_save (w : world) (booking : document) : M next_call :=
  if isModified booking "eventId" then
    r <- try_catch
           (eventExists <- findById w (eventId (doc booking)) ;;
            match eventExists with
            | None => ret (Some (event_missing (eventId (doc booking))))
            | Some _ => ret None
            end)
           (fun _ => ret (Some lookup_failed)) ;;
    match r with
    | Some error => ret (NextError error)
    | None => ret Next
    end
  else ret Next.

End BookingModel.

(** ** The server action [getSimilarEventsBySlug] *)

Module Actions.

Local Open Scope eff_scope.

(** Reading [event._id] when [event] is [null]. *)
Definition null_deref : thrown :=
  JsError "TypeError" "Cannot read properties of null (reading '_id')".

Definition getSimilarEventsBySlug (w : world) (s : string)
  : M (list IEvent) :=
  try_catch
    (connectDB w ;;;
     event <- findOne_slug w s ;;
     match event with
     | None => throw null_deref
     | Some e => find_similar w (_id e) (tags e)
     end)
    (fun _ => ret []).

End Actions.

(** ** The route handler [GET /api/events/[slug]] *)

Module Route.

Local Open Scope eff_scope.

(** What [params] carries for [slug]: nothing, a string, or a value that is
    no string. *)
Inductive param : Type :=
| PUndefined
| PString (s : string)
| POther.

(** [NextResponse.json(body, { status })] *)
Record response : Type := {
  status : Z;
  message : string;
  error : option string;
  event : option IEvent
}.

Definition json (st : Z) (msg : string) (err : option string)
    (ev : option IEvent) : response :=
  {| status := st; message := msg; error := err; event := ev |}.

(** The slug that passes the guard
    [!slug || typeof slug !== "string" || slug.trim() === ""]; [None] when
    the guard rejects. *)
Definition guarded_slug (p : param) : option string :=
  match p with
  | PString s => if is_empty s || String.eqb (trim s) "" then None else Some s
  | _ => None
  end.

(** The body of the [try] block. *)
Definition GET_try (w : world) (p : param) : M response :=
  connectDB w ;;;
  match guarded_slug p with
  | None => ret (json 400 "Invalid or missing slug parameter" None None)
  | Some s =>
      let sanitizedSlug := toLowerCase (trim s) in
      ev <- findOne_slug w sanitizedSlug ;;
      match ev with
      | None => ret (json 404 "Event not found" None None)
      | Some e => ret (json 200 "Event fetched successfully" None (Some e))
      end
  end.

(** The body of the [catch (e)] block. *)
Definition GET_catch (w : world) (e : thrown) : M response :=
  (if String.eqb (NODE_ENV w) "development"
   then log (ConsoleError e) else ret tt) ;;;
  match e with
  | JsError _ msg =>                              (* e instanceof Error *)
      if includes msg "MONGODB_URI"
      then ret (json 500 "Database connection error" None None)
      else ret (json 500 "Event fetching failed" (Some msg) None)
  | NonError => ret (json 500 "An unexpected error occurred" None None)
  end.

Definition GET (w : world) (p : param) : M response :=
  try_catch (GET_try w p) (GET_catch w).

End Route.

(** ** What the specification says of slugs *)

Module SlugSpec.

(** [[a-z0-9-]] *)
Definition slug_char (c : ascii) : bool :=
  is_lower_az c || is_digit c || is_hyphen c.

Definition starts_with_hyphen (s : string) : bool :=
  match s with
  | String c _ => is_hyphen c
  | EmptyString => false
  end.

Fixpoint ends_with_hyphen (s : string) : bool :=
  match s with
  | EmptyString => false
  | String c EmptyString => is_hyphen c
  | String _ r => ends_with_hyphen r
  end.

Fixpoint adjacent_hyphens (s : string) : bool :=
  match s with
  | EmptyString => false
  | String c r => (is_hyphen c && starts_with_hyphen r) || adjacent_hyphens r
  end.

(** A canonical slug: only [[a-z0-9-]], no hyphen at either end, no two
    hyphens in a row. *)
Definition canonical (s : string) : bool :=
  all slug_char s && negb (starts_with_hyphen s)
  && negb (ends_with_hyphen s) && negb (adjacent_hyphens s).

(** The steps of the contract, each following its words. *)

(** "all characters outside [[a-z0-9\s-]] removed" *)
Definition allowed (c : ascii) : bool :=
  is_lower_az c || is_digit c || is_white c || is_hyphen c.

Definition keep_allowed (s : string) : string :=
  string_of_list_ascii (filter allowed (list_ascii_of_string s)).

(** "runs collapsed to one": of a run of the class only its last code unit
    stays. *)
Fixpoint squeeze (p : ascii -> bool) (s : string) : string :=
  match s with
  | EmptyString => EmptyString
  | String c r =>
      match r with
      | String c' _ => if p c && p c' then squeeze p r
                       else String c (squeeze p r)
      | EmptyString => s
      end
  end.

Fixpoint hyphenate (p : ascii -> bool) (s : string) : string :=
  match s with
  | EmptyString => EmptyString
  | String c r => String (if p c then "-"%char else c) (hyphenate p r)
  end.

(** "whitespace runs collapsed to single hyphens" *)
Definition whitespace_to_hyphens (s : string) : string :=
  hyphenate is_white (squeeze is_white s).

(** "hyphen runs collapsed to one" *)
Definition collapse_hyphens (s : string) : string := squeeze is_hyphen s.

(** "leading/trailing hyphens stripped": all of them. *)
Fixpoint strip_leading (s : string) : string :=
  match s with
  | String c r => if is_hyphen c then strip_leading r else s
  | EmptyString => EmptyString
  end.

Fixpoint strip_trailing (s : string) : string :=
  match s with
  | EmptyString => EmptyString
  | String c r =>
      let r' := strip_trailing r in
      if is_hyphen c && is_empty r' then EmptyString else String c r'
  end.

Definition canonical_slug (title : string) : string :=
  strip_trailing
    (strip_leading
       (collapse_hyphens
          (whitespace_to_hyphens (keep_allowed (trim (toLowerCase title)))))).

(** A code unit whose lower case is neither a letter of [[a-z]] nor a
    digit. *)
Definition plain (c : ascii) : bool :=
  negb (is_lower_az (lower_char c) || is_digit (lower_char c)).

End SlugSpec.

Import SlugSpec.

(** ** What the specification says of times *)

Module TimeSpec.

(** The shape [HH:MM] of a normalized time. *)
Definition is_HH_MM (s : string) : bool :=
  match s with
  | String a (String b (String c (String d (String e EmptyString)))) =>
      is_digit a && is_digit b && Ascii.eqb c ":" && is_digit d && is_digit e
  | _ => false
  end.

Fixpoint ends_with_digit (s : string) : bool :=
  match s with
  | EmptyString => false
  | String c EmptyString => is_digit c
  | String _ r => ends_with_digit r
  end.

(** The text before and after the first colon. *)
Fixpoint split_colon (s : string) : string * string :=
  match s with
  | EmptyString => (EmptyString, EmptyString)
  | String c r =>
      if Ascii.eqb c ":" then (EmptyString, r)
      else let '(a, b) := split_colon r in (String c a, b)
  end.

(** The normalizer as the specification words it: the hour and the
    minutes of [H:MM] or [HH:MM], the suffix AM or PM in any case; PM adds
    12 hours unless the hour is 12, AM turns hour 12 into 0; then the hour
    must lie in 0..23 and the minutes in 0..59; the result is zero-padded
    [HH:MM]. *)
Definition normalizeTime_spec (timeStr : string) : completion string :=
  match timeRegex_match (trim timeStr) with
  | None => Abrupt invalid_time_format
  | Some m =>
      let '(hh, mm) := split_colon (ToString (index m 1)) in
      let hours := parseInt (Some hh) in
      let minutes := parseInt (Some mm) in
      let period := opt_toUpperCase (index m 2) in
      let hours :=
        if strict_eq_str period "PM" && negb (num_eq hours (Num 12))
        then num_add hours (Num 12)
        else if strict_eq_str period "AM" && num_eq hours (Num 12)
        then Num 0
        else hours in
      if num_lt hours (Num 0) || num_gt hours (Num 23)
         || num_lt minutes (Num 0) || num_gt minutes (Num 59)
      then Abrupt time_out_of_range
      else Normal (padStart0 2 (num_toString hours) ++ ":"
                   ++ padStart0 2 (num_toString minutes))
  end.

End TimeSpec.

Import TimeSpec.

(** ** What the specification says of dates *)

Module DateSpec.

Local Open Scope Z_scope.

(** The shape [YYYY-MM-DD]. *)
Definition is_YYYY_MM_DD (s : string) : bool :=
  match s with
  | String y1 (String y2 (String y3 (String y4 (String h1
      (String m1 (String m2 (String h2
        (String d1 (String d2 EmptyString))))))))) =>
      is_digit y1 && is_digit y2 && is_digit y3 && is_digit y4
      && is_hyphen h1 && is_digit m1 && is_digit m2
      && is_hyphen h2 && is_digit d1 && is_digit d2
  | _ => false
  end.

(** The UTC year of a time value. *)
Definition utc_year (t : Z) : Z :=
  let '(y, _, _) := civil_from_days (t / msPerDay) in y.

(** Midnight UTC of 5 March 2024. *)
Definition march_5_2024 : Z := 1709596800000.

(** [n] decimal digits and nothing else. *)
Definition digits_only (n : nat) (s : string) : bool :=
  (String.length s =? n)%nat && all is_digit s.

(** The canonical date [YYYY-MM-DD] of a year in 0..9999, a month and a
    day. *)
Definition iso_date (y m d : Z) : string :=
  pad 4 y ++ "-" ++ pad 2 m ++ "-" ++ pad 2 d.

(** Reading [n] digits from the number printed on [n] digits gives the
    number back. *)
Definition reads_back (n : nat) (z : Z) : bool :=
  match digits n 0 (pad n z) with
  | Some (v, EmptyString) => (v =? z)%Z
  | _ => false
  end.

(** The code units of a printed date. *)
Definition date_unit (c : ascii) : bool :=
  is_digit c || is_hyphen c || Ascii.eqb c "+".

(** The shape of a date with an expanded year: a sign, six digits, and
    [-MM-DD]. *)
Definition is_signed_date (s : string) : bool :=
  match s with
  | String sg r =>
      (Ascii.eqb sg "+" || Ascii.eqb sg "-")
      && digits_only 6 (take 6 r)
      && match drop 6 r with
         | String h1 (String m1 (String m2 (String h2
             (String d1 (String d2 EmptyString))))) =>
             is_hyphen h1 && is_digit m1 && is_digit m2
             && is_hyphen h2 && is_digit d1 && is_digit d2
         | _ => false
         end
  | EmptyString => false
  end.

(** [f] holds of the [n] integers from [z] on. *)
Fixpoint holds_from (f : Z -> bool) (n : nat) (z : Z) : bool :=
  match n with
  | O => true
  | S n' => if f z then holds_from f n' (z + 1) else false
  end.

End DateSpec.

Import DateSpec.

(** ** What the specification says of the queries *)

Module QuerySpec.

(** The slug a lookup for [s] asks for: [s] lower-cased and trimmed, as
    the cast of the filter leaves it. *)
Definition looked_up (s : string) : string := trim (toLowerCase s).

(** The slug resolves to the event: the connection is there, the lookup
    completes and the event is the first of the collection stored under the
    slug looked up. *)
Definition resolves (w : world) (s : string) (e : IEvent) : Prop :=
  connect_failure w = None
  /\ query_failure w (FindOneBySlug (looked_up s)) = None
  /\ find (fun x => String.eqb (slug x) (looked_up s)) (events w) = Some e.

(** The source event cannot be resolved: the connection or the lookup
    fails, or no event is stored under the slug looked up. *)
Definition unresolved (w : world) (s : string) : Prop :=
  connect_failure w <> None
  \/ query_failure w (FindOneBySlug (looked_up s)) <> None
  \/ forall e, In e (events w) -> slug e <> looked_up s.

Definition shares_tag (x e : IEvent) : Prop :=
  exists t, In t (tags x) /\ In t (tags e).

(** The slug of a request is missing or blank. *)
Definition missing_or_blank (p : Route.param) : bool :=
  match p with
  | Route.PString s => String.eqb (trim s) ""
  | _ => true
  end.

(** The message of the response to a failure. *)
Definition failure_message (e : thrown) : string :=
  match e with
  | JsError _ msg =>
      if includes msg "MONGODB_URI" then "Database connection error"
      else "Event fetching failed"
  | NonError => "An unexpected error occurred"
  end.

(** The response to a failure. *)
Definition failure_response (e : thrown) : Route.response :=
  match e with
  | JsError _ msg =>
      if includes msg "MONGODB_URI"
      then Route.json 500 "Database connection error" None None
      else Route.json 500 "Event fetching failed" (Some msg) None
  | NonError => Route.json 500 "An unexpected error occurred" None None
  end.

(** What the handler logs for a failure. *)
Definition failure_log (w : world) (e : thrown) : list op :=
  if String.eqb (NODE_ENV w) "development" then [ConsoleError e] else [].

End QuerySpec.

Import QuerySpec.

(** ** Sample documents *)

Module Samples.

Definition event_titled (t : string) : IEvent :=
  {| _id := "65f0a1b2c3d4e5f601234567";
     title := cast_title t;
     slug := "";
     description := "Two days of talks";
     overview := "Talks and workshops";
     image := "https://example.org/banner.png";
     venue := "Main hall";
     location := "Lyon";
     date := "2024-03-05";
     time := "23:59";
     mode := "hybrid";
     audience := "Developers";
     agenda := ["Opening"; "Talks"];
     organizer := "The organizers";
     tags := ["web"; "cloud"] |}.

(** A document that was just created: every path that was set counts as
    modified. *)
Definition created (e : IEvent) : EventModel.document :=
  {| EventModel.doc := e;
     isNew := true;
     EventModel.modifiedPaths :=
       ["title"; "description"; "overview"; "image"; "venue"; "location";
        "date"; "time"; "mode"; "audience"; "agenda"; "organizer"; "tags"] |}.

Definition event_with (id sl : string) (tg : list string) : IEvent :=
  {| _id := id;
     title := sl;
     slug := sl;
     description := "Two days of talks";
     overview := "Talks and workshops";
     image := "https://example.org/banner.png";
     venue := "Main hall";
     location := "Lyon";
     date := "2024-03-05";
     time := "18:30";
     mode := "online";
     audience := "Developers";
     agenda := ["Opening"];
     organizer := "The organizers";
     tags := tg |}.

Definition web_conf : IEvent :=
  event_with "65f0a1b2c3d4e5f601234561" "web-conf" ["web"; "cloud"].
Definition cloud_day : IEvent :=
  event_with "65f0a1b2c3d4e5f601234562" "cloud-day" ["cloud"].
Definition chess_open : IEvent :=
  event_with "65f0a1b2c3d4e5f601234563" "chess-open" ["chess"].

(** A world where the storage answers. *)
Definition up : world :=
  {| NODE_ENV := "production";
     connect_failure := None;
     events := [web_conf; cloud_day; chess_open];
     query_failure := fun _ => None |}.

(** A world where [connectDB] finds no connection string. *)
Definition unconfigured : world :=
  {| NODE_ENV := "production";
     connect_failure :=
       Some (new_Error
               "Please define the MONGODB_URI environment variable");
     events := [];
     query_failure := fun _ => None |}.

(** A world where every query fails. *)
Definition down : world :=
  {| NODE_ENV := "development";
     connect_failure := None;
     events := [web_conf];
     query_failure := fun _ => Some (new_Error "connection reset") |}.

(** A world where the lookups by slug and by id answer and the query by
    tags is rejected. *)
Definition tags_down : world :=
  {| NODE_ENV := "production";
     connect_failure := None;
     events := [web_conf; cloud_day; chess_open];
     query_failure := fun q =>
       match q with
       | FindSimilar _ _ => Some (new_Error "connection reset")
       | _ => None
       end |}.

Definition booking (id : string) (paths : list string)
  : BookingModel.document :=
  {| BookingModel.doc :=
       {| BookingModel.eventId := id;
          BookingModel.email := "ada@example.org" |};
     BookingModel.modifiedPaths := paths |}.

End Samples.

(** ** Further predicates and the Booking validator *)

Module SlugFacts.

(** A code unit that is neither a letter of [[a-z]] nor a digit. *)
Definition unlettered (c : ascii) : bool :=
  negb (is_lower_az c || is_digit c).

End SlugFacts.

Import SlugFacts.

(** ** The validator of [email] in the Booking schema *)

Module BookingSchema.

Definition is_alpha (c : ascii) : bool :=
  in_range 65 90 c || in_range 97 122 c.

(** [[a-zA-Z0-9._%+-]] *)
Definition local_unit (c : ascii) : bool :=
  is_alpha c || is_digit c
  || Ascii.eqb c "." || Ascii.eqb c "_" || Ascii.eqb c "%"
  || Ascii.eqb c "+" || Ascii.eqb c "-".

(** [[a-zA-Z0-9.-]] *)
Definition domain_unit (c : ascii) : bool :=
  is_alpha c || is_digit c || Ascii.eqb c "." || Ascii.eqb c "-".

(** [\.[a-zA-Z]{2,}$] at the head of the input. *)
Definition tld_here (s : string) : bool :=
  match s with
  | String c r =>
      Ascii.eqb c "." && (2 <=? String.length r)%nat && all is_alpha r
  | EmptyString => false
  end.

(** [[a-zA-Z0-9.-]+\.[a-zA-Z]{2,}$]: the class also holds the dot, so the
    matcher backtracks over the length of the repetition; every length is
    tried here.  [started] tells that the repetition has taken a unit. *)
Fixpoint domain_match (started : bool) (s : string) : bool :=
  (started && tld_here s)
  || match s with
     | String c r => domain_unit c && domain_match true r
     | EmptyString => false
     end.

(** [^[a-zA-Z0-9._%+-]+@] and the rest.  The class does not hold [@], so
    the repetition ends at the first unit outside the class. *)
Fixpoint local_match (started : bool) (s : string) : bool :=
  match s with
  | String c r =>
      if local_unit c then local_match true r
      else started && Ascii.eqb c "@" && domain_match false r
  | EmptyString => false
  end.

(** [emailRegex.test(email)] for
    [/^[a-zA-Z0-9._%+-]+@[a-zA-Z0-9.-]+\.[a-zA-Z]{2,}$/]. *)
Definition emailRegex_test (email : string) : bool := local_match false email.

(** The setters of [email]: [trim: true] and [lowercase: true]. *)
Definition cast_email (v : string) : string := trim (toLowerCase v).

(** The rules of the path [email], on the value the document holds. *)
Definition check_email (email : string) : list string :=
  if is_empty email then ["Email is required"]
  else if emailRegex_test email then []
  else ["Please present a valid email address"].

(** The number of occurrences of a code unit. *)
Fixpoint count_unit (u : ascii) (s : string) : nat :=
  match s with
  | EmptyString => 0
  | String c r => (if Ascii.eqb c u then 1 else 0) + count_unit u r
  end.

(** A code unit that is no white space. *)
Definition black (c : ascii) : bool := negb (is_white c).

(** A code unit of ASCII. *)
Definition ascii_unit (c : ascii) : bool := (code c <? 128)%N.

End BookingSchema.

Import BookingSchema.

(** ** More sample data *)

Module MoreSamples.

Definition untagged : IEvent :=
  Samples.event_with "65f0a1b2c3d4e5f601234564" "open-day" [].

(** A collection that holds an event without tags (written before the
    schema asked for one) and an event whose slug is empty. *)
Definition legacy : world :=
  {| NODE_ENV := "production";
     connect_failure := None;
     events := [Samples.web_conf; untagged;
                Samples.event_with "65f0a1b2c3d4e5f601234565" "" ["web"]];
     query_failure := fun _ => None |}.

(** The stored event [web_conf] after [event.title = t]: the title went
    through its setter and is the one modified path, the slug is the
    stored one. *)
Definition retitled (t : string) : EventModel.document :=
  {| EventModel.doc :=
       {| _id := _id Samples.web_conf;
          title := cast_title t;
          slug := slug Samples.web_conf;
          description := description Samples.web_conf;
          overview := overview Samples.web_conf;
          image := image Samples.web_conf;
          venue := venue Samples.web_conf;
          location := location Samples.web_conf;
          date := date Samples.web_conf;
          time := time Samples.web_conf;
          mode := mode Samples.web_conf;
          audience := audience Samples.web_conf;
          agenda := agenda Samples.web_conf;
          organizer := organizer Samples.web_conf;
          tags := tags Samples.web_conf |};
     isNew := false;
     EventModel.modifiedPaths := ["title"] |}.

End MoreSamples.

(** * Properties *)

(** ** Code units *)

Ltac by_cases_on_unit c :=
  destruct c as [[] [] [] [] [] [] [] []]; vm_compute; try reflexivity;
  try discriminate; auto.

Lemma slug_char_lower c : slug_char c = true -> lower_char c = c.
Proof. by_cases_on_unit c. Qed.

Lemma slug_char_not_white c : slug_char c = true -> is_white c = false.
Proof. by_cases_on_unit c. Qed.

Lemma slug_char_not_special c : slug_char c = true -> special c = false.
Proof. by_cases_on_unit c. Qed.

Lemma special_allowed c : special c = negb (allowed c).
Proof. reflexivity. Qed.

Lemma kept_unit c :
  special c = false -> is_white c = false -> slug_char c = true.
Proof. by_cases_on_unit c. Qed.

Lemma is_hyphen_eq c : is_hyphen c = true -> c = "-"%char.
Proof. by_cases_on_unit c. Qed.

(** ** Strings that are already clean pass every step unchanged *)

Section CleanStrings.

Variable s : string.
Hypothesis clean : all slug_char s = true.

Lemma toLowerCase_clean : toLowerCase s = s.
Proof.
  induction s as [|c r IH]; simpl in *; [reflexivity|].
  apply andb_prop in clean as [Hc Hr].
  now rewrite (slug_char_lower c Hc), (IH Hr).
Qed.

Lemma trimStart_clean : trimStart s = s.
Proof.
  destruct s as [|c r]; simpl in *; [reflexivity|].
  apply andb_prop in clean as [Hc _].
  now rewrite (slug_char_not_white c Hc).
Qed.

Lemma trimEnd_clean : trimEnd s = s.
Proof.
  induction s as [|c r IH]; simpl in *; [reflexivity|].
  apply andb_prop in clean as [Hc Hr].
  now rewrite (slug_char_not_white c Hc), (IH Hr).
Qed.

Lemma trim_clean : trim s = s.
Proof. unfold trim. now rewrite trimStart_clean, trimEnd_clean. Qed.

Lemma remove_special_clean : remove_chars special s = s.
Proof.
  induction s as [|c r IH]; simpl in *; [reflexivity|].
  apply andb_prop in clean as [Hc Hr].
  now rewrite (slug_char_not_special c Hc), (IH Hr).
Qed.

Lemma replace_white_clean b : replace_runs is_white "-" b s = s.
Proof.
  revert b; induction s as [|c r IH]; intros b; simpl in *; [reflexivity|].
  apply andb_prop in clean as [Hc Hr].
  now rewrite (slug_char_not_white c Hc), (IH Hr).
Qed.

End CleanStrings.

Lemma replace_hyphens_fixed s : forall b,
  adjacent_hyphens s = false ->
  (b = true -> starts_with_hyphen s = false) ->
  replace_runs is_hyphen "-" b s = s.
Proof.
  induction s as [|c r IH]; intros b Hadj Hb; simpl in *; [reflexivity|].
  apply orb_false_elim in Hadj as [Hcr Hr].
  destruct (is_hyphen c) eqn:Hc.
  - destruct b; [now specialize (Hb eq_refl)|].
    simpl in Hcr. rewrite (is_hyphen_eq c Hc). simpl.
    now rewrite (IH true Hr (fun _ => Hcr)).
  - now rewrite (IH false Hr (fun H => False_ind _ (diff_false_true H))).
Qed.

Lemma drop_final_hyphen_fixed s :
  ends_with_hyphen s = false -> drop_final_hyphen s = s.
Proof.
  induction s as [|c r IH]; simpl; [reflexivity|]; intros H.
  destruct r as [|c' r'].
  - now rewrite H.
  - rewrite andb_false_r. now rewrite (IH H).
Qed.

Lemma strip_edge_hyphen_fixed s :
  starts_with_hyphen s = false -> ends_with_hyphen s = false ->
  strip_edge_hyphen s = s.
Proof.
  destruct s as [|c r]; [reflexivity|]. intros Hs He.
  unfold strip_edge_hyphen. simpl in Hs. rewrite Hs.
  now apply drop_final_hyphen_fixed.
Qed.

(** ** What each step of [generateSlug] establishes *)

Lemma remove_special_allowed s : all allowed (remove_chars special s) = true.
Proof.
  induction s as [|c r IH]; simpl; [reflexivity|].
  destruct (special c) eqn:Hc; [exact IH|]. simpl. rewrite IH.
  rewrite special_allowed in Hc. apply negb_false_iff in Hc. now rewrite Hc.
Qed.

Lemma replace_white_slug_chars s : forall b,
  all allowed s = true ->
  all slug_char (replace_runs is_white "-" b s) = true.
Proof.
  induction s as [|c r IH]; intros b H; simpl in *; [reflexivity|].
  apply andb_prop in H as [Hc Hr].
  destruct (is_white c) eqn:Hw.
  - destruct b; simpl; auto.
  - simpl. rewrite (IH false Hr), andb_true_r.
    apply kept_unit; [|exact Hw].
    rewrite special_allowed. now rewrite Hc.
Qed.

Lemma replace_hyphens_slug_chars s : forall b,
  all slug_char s = true ->
  all slug_char (replace_runs is_hyphen "-" b s) = true.
Proof.
  induction s as [|c r IH]; intros b H; simpl in *; [reflexivity|].
  apply andb_prop in H as [Hc Hr].
  destruct (is_hyphen c).
  - destruct b; simpl; auto.
  - simpl. now rewrite Hc, (IH false Hr).
Qed.

Lemma replace_hyphens_no_run s : forall b,
  adjacent_hyphens (replace_runs is_hyphen "-" b s) = false
  /\ (b = true ->
      starts_with_hyphen (replace_runs is_hyphen "-" b s) = false).
Proof.
  induction s as [|c r IH]; intros b; simpl; [now split|].
  destruct (is_hyphen c) eqn:Hc.
  - destruct b.
    + apply (IH true).
    + destruct (IH true) as [Ha Hs]. split; [|discriminate].
      simpl. now rewrite (Hs eq_refl), Ha.
  - destruct (IH false) as [Ha _]. simpl. rewrite Hc, Ha. now split.
Qed.

Lemma drop_final_hyphen_all p s :
  all p s = true -> all p (drop_final_hyphen s) = true.
Proof.
  induction s as [|c r IH]; simpl; [reflexivity|]; intros H.
  apply andb_prop in H as [Hc Hr].
  destruct (is_hyphen c && is_empty r); simpl; [reflexivity|].
  now rewrite Hc, (IH Hr).
Qed.

Lemma drop_final_hyphen_start s :
  starts_with_hyphen s = false ->
  starts_with_hyphen (drop_final_hyphen s) = false.
Proof.
  destruct s as [|c r]; simpl; [reflexivity|]; intros H.
  now rewrite H.
Qed.

Lemma drop_final_hyphen_no_run s :
  adjacent_hyphens s = false ->
  adjacent_hyphens (drop_final_hyphen s) = false.
Proof.
  induction s as [|c r IH]; simpl; [reflexivity|]; intros H.
  apply orb_false_elim in H as [Hcr Hr].
  destruct (is_hyphen c && is_empty r); simpl; [reflexivity|].
  rewrite (IH Hr), orb_false_r.
  destruct (is_hyphen c); [|reflexivity]. simpl in *.
  now apply drop_final_hyphen_start.
Qed.

Lemma drop_final_hyphen_empty s :
  drop_final_hyphen s = "" -> s = "" \/ starts_with_hyphen s = true.
Proof.
  destruct s as [|c r]; simpl; [now left|].
  destruct (is_hyphen c) eqn:Hc; [now right|discriminate].
Qed.

Lemma drop_final_hyphen_end s :
  adjacent_hyphens s = false ->
  ends_with_hyphen (drop_final_hyphen s) = false.
Proof.
  induction s as [|c r IH]; simpl; [reflexivity|]; intros H.
  apply orb_false_elim in H as [Hcr Hr].
  destruct (is_hyphen c && is_empty r) eqn:Hce; [reflexivity|].
  specialize (IH Hr).
  destruct (drop_final_hyphen r) as [|d r'] eqn:Hd; [|exact IH].
  simpl. destruct (drop_final_hyphen_empty r Hd) as [-> | Hs].
  - now rewrite andb_true_r in Hce.
  - rewrite Hs, andb_true_r in Hcr. exact Hcr.
Qed.

Lemma strip_edge_hyphen_canonical s :
  all slug_char s = true -> adjacent_hyphens s = false ->
  canonical (strip_edge_hyphen s) = true.
Proof.
  intros Hall Hadj. unfold canonical, strip_edge_hyphen.
  destruct s as [|c r]; [reflexivity|].
  simpl in Hall, Hadj.
  apply andb_prop in Hall as [Hc Hr].
  apply orb_false_elim in Hadj as [Hcr Hra].
  destruct (is_hyphen c) eqn:Hh.
  - simpl in Hcr.
    now rewrite (drop_final_hyphen_all _ _ Hr), (drop_final_hyphen_start _ Hcr),
      (drop_final_hyphen_end _ Hra), (drop_final_hyphen_no_run _ Hra).
  - assert (Hall : all slug_char (String c r) = true) by (simpl; now rewrite Hc).
    assert (Hadj : adjacent_hyphens (String c r) = false)
      by (simpl; now rewrite Hh, Hra).
    assert (Hst : starts_with_hyphen (String c r) = false) by exact Hh.
    now rewrite (drop_final_hyphen_all _ _ Hall), (drop_final_hyphen_start _ Hst),
      (drop_final_hyphen_end _ Hadj), (drop_final_hyphen_no_run _ Hadj).
Qed.

Lemma generateSlug_canonical title : canonical (generateSlug title) = true.
Proof.
  unfold generateSlug.
  apply strip_edge_hyphen_canonical.
  - apply replace_hyphens_slug_chars, replace_white_slug_chars,
      remove_special_allowed.
  - apply (replace_hyphens_no_run _ false).
Qed.

Lemma canonical_parts s :
  canonical s = true ->
  all slug_char s = true /\ starts_with_hyphen s = false
  /\ ends_with_hyphen s = false /\ adjacent_hyphens s = false.
Proof.
  unfold canonical. intros H.
  repeat (apply andb_prop in H as [H ?]).
  repeat split; auto; now apply negb_true_iff.
Qed.

Lemma generateSlug_fixed s : canonical s = true -> generateSlug s = s.
Proof.
  intros H. destruct (canonical_parts s H) as (Hall & Hs & He & Ha).
  unfold generateSlug.
  rewrite (toLowerCase_clean s Hall), (trim_clean s Hall),
    (remove_special_clean s Hall), (replace_white_clean s Hall).
  rewrite (replace_hyphens_fixed s false Ha) by discriminate.
  now apply strip_edge_hyphen_fixed.
Qed.

(** The setters of [slug] leave what [generateSlug] returns as it is. *)
Lemma cast_slug_generateSlug title :
  cast_slug (generateSlug title) = generateSlug title.
Proof.
  destruct (canonical_parts _ (generateSlug_canonical title)) as (Hall & _).
  unfold cast_slug. rewrite (toLowerCase_clean _ Hall). now apply trim_clean.
Qed.

(** ** The steps of the contract and the steps of the code *)

Lemma keep_allowed_remove s : keep_allowed s = remove_chars special s.
Proof.
  unfold keep_allowed.
  induction s as [|c r IH]; simpl; [reflexivity|].
  rewrite special_allowed.
  destruct (allowed c); simpl; now rewrite IH.
Qed.

Lemma squeeze_replace_runs p s :
  hyphenate p (squeeze p s) = replace_runs p "-" false s.
Proof.
  induction s as [|c r IH]; [reflexivity|].
  destruct r as [|c' r'].
  - simpl. now destruct (p c).
  - change (squeeze p (String c (String c' r')))
      with (if p c && p c' then squeeze p (String c' r')
            else String c (squeeze p (String c' r'))).
    destruct (p c) eqn:Hc, (p c') eqn:Hc'; simpl andb; cbv iota.
    + rewrite IH. simpl. now rewrite Hc, Hc'.
    + cbn [hyphenate]. rewrite IH. simpl. now rewrite Hc, Hc'.
    + cbn [hyphenate]. rewrite IH. simpl. now rewrite Hc, Hc'.
    + cbn [hyphenate]. rewrite IH. simpl. now rewrite Hc, Hc'.
Qed.

Lemma hyphenate_hyphens s : hyphenate is_hyphen s = s.
Proof.
  induction s as [|c r IH]; simpl; [reflexivity|]. rewrite IH.
  destruct (is_hyphen c) eqn:Hc; [|reflexivity].
  now rewrite (is_hyphen_eq c Hc).
Qed.

Lemma collapse_hyphens_replace s :
  collapse_hyphens s = replace_runs is_hyphen "-" false s.
Proof.
  unfold collapse_hyphens.
  now rewrite <- squeeze_replace_runs, hyphenate_hyphens.
Qed.

Lemma strip_trailing_drop s :
  adjacent_hyphens s = false -> strip_trailing s = drop_final_hyphen s.
Proof.
  induction s as [|c r IH]; simpl; [reflexivity|]; intros H.
  apply orb_false_elim in H as [Hcr Hr].
  rewrite (IH Hr).
  destruct (is_hyphen c) eqn:Hc; [|reflexivity].
  simpl in *. destruct r as [|c' r']; [reflexivity|].
  simpl in *. now rewrite Hcr.
Qed.

Lemma strip_all_strip_edge s :
  adjacent_hyphens s = false ->
  strip_trailing (strip_leading s) = strip_edge_hyphen s.
Proof.
  destruct s as [|c r]; [reflexivity|]. intros H.
  pose proof H as H'. simpl in H'.
  apply orb_false_elim in H' as [Hcr Hr].
  unfold strip_edge_hyphen. simpl strip_leading.
  destruct (is_hyphen c) eqn:Hc.
  - simpl in Hcr.
    replace (strip_leading r) with r
      by (destruct r; simpl in *; [reflexivity | now rewrite Hcr]).
    now apply strip_trailing_drop.
  - now apply strip_trailing_drop.
Qed.

Lemma generateSlug_refines title : generateSlug title = canonical_slug title.
Proof.
  unfold canonical_slug, generateSlug, whitespace_to_hyphens.
  rewrite keep_allowed_remove, squeeze_replace_runs, collapse_hyphens_replace.
  symmetry. apply strip_all_strip_edge.
  apply (replace_hyphens_no_run _ false).
Qed.

(** ** The Event hook and the slug *)

Lemma set_date_slug v e : slug (set_date v e) = slug e.
Proof. reflexivity. Qed.

Lemma set_time_slug v e : slug (set_time v e) = slug e.
Proof. reflexivity. Qed.

(** An assignment marks its own path and no other. *)
Lemma isModified_mark_other p c d n e q :
  String.eqb q p = false ->
  EventModel.isModified
    {| EventModel.doc := e; isNew := n;
       EventModel.modifiedPaths := mark p c d |} q
  = EventModel.isModified d q.
Proof.
  intros Hq. unfold mark, EventModel.isModified.
  cbn [EventModel.modifiedPaths].
  destruct (existsb (String.eqb p) (EventModel.modifiedPaths d));
    [reflexivity|].
  destruct (isNew d || c); [|reflexivity].
  rewrite existsb_app. cbn [existsb]. rewrite Hq.
  now rewrite !orb_false_r.
Qed.

Lemma isModified_mark_same p c d n e :
  EventModel.isModified
    {| EventModel.doc := e; isNew := n;
       EventModel.modifiedPaths := mark p c d |} p
  = EventModel.isModified d p || (isNew d || c).
Proof.
  unfold mark, EventModel.isModified. cbn [EventModel.modifiedPaths].
  destruct (existsb (String.eqb p) (EventModel.modifiedPaths d)) eqn:E;
    [exact E|].
  destruct (isNew d || c); [|now rewrite E].
  rewrite existsb_app, E. cbn [existsb]. now rewrite String.eqb_refl.
Qed.

(** The guards of the hook read paths that the assignments before them do
    not touch: the hook in terms of the document it is given. *)
Lemma pre_save_steps h d :
  EventModel.pre_save h d =
  let d1 :=
    if EventModel.isModified d "title" || isNew d
    then assign_slug (generateSlug (title (EventModel.doc d))) d
    else d in
  (d2 <- (if EventModel.isModified d "date"
          then v <- normalizeDate h (date (EventModel.doc d)) ;;
               Normal (assign_date v d1)
          else Normal d1) ;;
   d3 <- (if EventModel.isModified d "time"
          then v <- normalizeTime (time (EventModel.doc d)) ;;
               Normal (assign_time v d2)
          else Normal d2) ;;
   Normal d3)%completion.
Proof.
  unfold EventModel.pre_save. cbv zeta.
  set (d1 := if EventModel.isModified d "title" || isNew d
             then assign_slug (generateSlug (title (EventModel.doc d))) d
             else d).
  assert (H1 : EventModel.isModified d1 "date" = EventModel.isModified d "date"
               /\ EventModel.isModified d1 "time"
                  = EventModel.isModified d "time"
               /\ date (EventModel.doc d1) = date (EventModel.doc d)
               /\ time (EventModel.doc d1) = time (EventModel.doc d)).
  { subst d1. destruct (_ || _); [|now repeat split].
    unfold assign_slug. cbv zeta.
    now rewrite !isModified_mark_other by reflexivity. }
  destruct H1 as (Hd & Ht & Hdv & Htv). clearbody d1.
  rewrite Hd, Hdv.
  destruct (EventModel.isModified d "date").
  - destruct (normalizeDate h (date (EventModel.doc d))) as [v|e];
      [|reflexivity].
    cbn [and_then]. unfold assign_date at 1 2.
    rewrite isModified_mark_other by reflexivity.
    cbn [EventModel.doc time set_date]. now rewrite Ht, Htv.
  - cbn [and_then]. now rewrite Ht, Htv.
Qed.

Lemma pre_save_slug h d d' :
  EventModel.pre_save h d = Normal d' ->
  EventModel.isModified d "title" || isNew d = true ->
  slug (EventModel.doc d') = generateSlug (title (EventModel.doc d)).
Proof.
  rewrite pre_save_steps. cbv zeta. intros H Hm. rewrite Hm in H.
  destruct (EventModel.isModified d "date");
    [destruct (normalizeDate h _); [|discriminate]|];
    cbn [and_then] in H;
    (destruct (EventModel.isModified d "time");
     [destruct (normalizeTime _); [|discriminate]|]);
    cbn [and_then] in H; injection H as <-; simpl;
    apply cast_slug_generateSlug.
Qed.

Lemma save_slug h d d' :
  save h d = Normal d' ->
  EventModel.isModified d "title" || isNew d = true ->
  slug (EventModel.doc d') = generateSlug (title (EventModel.doc d)).
Proof.
  unfold save. destruct (validate _); [apply pre_save_slug | discriminate].
Qed.

(** ** Titles without letters or digits *)

Lemma plain_kept c :
  special c = false -> negb (is_lower_az c || is_digit c) = true ->
  is_white c || is_hyphen c = true.
Proof. by_cases_on_unit c. Qed.

Lemma all_trimStart p s : all p s = true -> all p (trimStart s) = true.
Proof.
  induction s as [|c r IH]; simpl; [reflexivity|]; intros H.
  destruct (is_white c); [|exact H].
  apply andb_prop in H as [_ Hr]. auto.
Qed.

Lemma all_trimEnd p s : all p s = true -> all p (trimEnd s) = true.
Proof.
  induction s as [|c r IH]; simpl; [reflexivity|]; intros H.
  apply andb_prop in H as [Hc Hr].
  destruct (is_white c && is_empty (trimEnd r)); [reflexivity|].
  simpl. now rewrite Hc, IH.
Qed.

Lemma all_toLowerCase_plain t :
  all plain t = true ->
  all (fun c => negb (is_lower_az c || is_digit c)) (toLowerCase t) = true.
Proof.
  induction t as [|c r IH]; simpl; [reflexivity|]; intros H.
  apply andb_prop in H as [Hc Hr]. rewrite (IH Hr).
  unfold plain in Hc. now rewrite Hc.
Qed.

Lemma remove_special_plain s :
  all (fun c => negb (is_lower_az c || is_digit c)) s = true ->
  all (fun c => is_white c || is_hyphen c) (remove_chars special s) = true.
Proof.
  induction s as [|c r IH]; simpl; [reflexivity|]; intros H.
  apply andb_prop in H as [Hc Hr].
  destruct (special c) eqn:Hs; [auto|].
  simpl. now rewrite (plain_kept c Hs Hc), IH.
Qed.

Lemma replace_white_hyphens s : forall b,
  all (fun c => is_white c || is_hyphen c) s = true ->
  all is_hyphen (replace_runs is_white "-" b s) = true.
Proof.
  induction s as [|c r IH]; intros b H; simpl in *; [reflexivity|].
  apply andb_prop in H as [Hc Hr].
  destruct (is_white c) eqn:Hw.
  - destruct b; simpl; auto.
  - simpl in *. now rewrite Hc, IH.
Qed.

Lemma replace_hyphens_only s :
  all is_hyphen s = true ->
  replace_runs is_hyphen "-" true s = ""
  /\ (replace_runs is_hyphen "-" false s = ""
      \/ replace_runs is_hyphen "-" false s = "-").
Proof.
  induction s as [|c r IH]; simpl; [auto|]; intros H.
  apply andb_prop in H as [Hc Hr]. rewrite Hc.
  destruct (IH Hr) as [-> _]. auto.
Qed.

Lemma generateSlug_plain t : all plain t = true -> generateSlug t = "".
Proof.
  intros H. unfold generateSlug, trim.
  pose proof (replace_white_hyphens _ false
    (remove_special_plain _
       (all_trimEnd _ _ (all_trimStart _ _ (all_toLowerCase_plain t H)))))
    as Hh.
  destruct (replace_hyphens_only _ Hh) as [_ [-> | ->]]; reflexivity.
Qed.

(** ** The identifier normalizer: the claims *)

(** C4.  For every title, [generateSlug] returns the slug of the contract:
    the title lower-cased and trimmed, the characters outside
    [[a-z0-9\s-]] removed, whitespace runs turned into single hyphens,
    hyphen runs collapsed to one, leading and trailing hyphens stripped.
    The title "Hello, World! 2024" gives "hello-world-2024", and an event
    saved with that title, new or with its title modified, carries that
    slug. *)
Theorem generateSlug_contract :
  (forall title : string, generateSlug title = canonical_slug title)
  /\ generateSlug "Hello, World! 2024" = "hello-world-2024"
  /\ (forall (h : host) (d d' : EventModel.document),
        title (EventModel.doc d) = "Hello, World! 2024" ->
        EventModel.isModified d "title" || isNew d = true ->
        save h d = Normal d' ->
        slug (EventModel.doc d') = "hello-world-2024").
Proof.
  split; [exact generateSlug_refines|].
  split; [reflexivity|].
  intros h d d' Ht Hm Hs.
  rewrite (save_slug h d d' Hs Hm), Ht. reflexivity.
Qed.

Lemma generateSlug_contract_witness :
  exists d' : EventModel.document,
    save (V8.fixed_zone 0)
      (Samples.created (Samples.event_titled "Hello, World! 2024"))
    = Normal d'
    /\ slug (EventModel.doc d') = "hello-world-2024".
Proof.
  eexists. split.
  - vm_compute. reflexivity.
  - apply (proj2 (proj2 generateSlug_contract) (V8.fixed_zone 0)
             (Samples.created (Samples.event_titled "Hello, World! 2024"))).
    + reflexivity.
    + reflexivity.
    + vm_compute. reflexivity.
Defined.

(** C5.  [generateSlug] is idempotent: a canonical slug comes back
    unchanged, and so does every slug it returns.  For every title the
    result holds only characters of [[a-z0-9-]], neither starts nor ends
    with a hyphen, and has no two hyphens in a row. *)
Theorem generateSlug_idempotent (title : string) :
  (canonical title = true -> generateSlug title = title)
  /\ generateSlug (generateSlug title) = generateSlug title
  /\ all slug_char (generateSlug title) = true
  /\ starts_with_hyphen (generateSlug title) = false
  /\ ends_with_hyphen (generateSlug title) = false
  /\ adjacent_hyphens (generateSlug title) = false.
Proof.
  split; [apply generateSlug_fixed|].
  split; [apply generateSlug_fixed, generateSlug_canonical|].
  apply canonical_parts, generateSlug_canonical.
Qed.

Lemma generateSlug_idempotent_witness :
  canonical "hello-world-2024" = true
  /\ generateSlug "hello-world-2024" = "hello-world-2024".
Proof.
  split; [reflexivity|].
  apply (proj1 (generateSlug_idempotent "hello-world-2024")).
  reflexivity.
Defined.

(** ** The time normalizer *)

Lemma am_pm_not_digit_end p : is_am_pm p = true -> ends_with_digit p = false.
Proof.
  destruct p as [|c1 [|c2 [|c3 r]]]; simpl; try discriminate.
  intros H. apply andb_prop in H as [_ H]. revert H. by_cases_on_unit c2.
Qed.

Lemma am_pm_first_unit c :
  Ascii.eqb (canonicalize c) "A" || Ascii.eqb (canonicalize c) "P" = true ->
  c = "a"%char \/ c = "A"%char \/ c = "p"%char \/ c = "P"%char.
Proof. by_cases_on_unit c. Qed.

Lemma am_pm_parseInt p : is_am_pm p = true -> parseInt (Some p) = NaN.
Proof.
  destruct p as [|c1 [|c2 [|c3 r]]]; simpl; try discriminate.
  intros H. apply andb_prop in H as [H _].
  destruct (am_pm_first_unit c1 H) as [-> | [-> | [-> | ->]]]; reflexivity.
Qed.

Lemma match_suffix_capture rest g2 :
  match_suffix rest = Some g2 ->
  g2 = undefined \/ exists p, g2 = Some p /\ is_am_pm p = true.
Proof.
  unfold match_suffix. destruct (is_am_pm (trimStart rest)) eqn:Hp.
  - intros [= <-]. right. eauto.
  - destruct (is_empty _); [|discriminate]. intros [= <-]. now left.
Qed.

Lemma match_with_groups n s m :
  match_with n s = Some m ->
  exists g1 g2, m = [Some s; Some g1; g2]
    /\ (g2 = undefined \/ exists p, g2 = Some p /\ is_am_pm p = true).
Proof.
  unfold match_with. destruct (_ && _); [|discriminate].
  destruct (match_suffix _) as [g2|] eqn:Hs; [|discriminate].
  intros [= <-]. eauto using match_suffix_capture.
Qed.

(** The match has the groups 0, 1 and 2 and no more; group 2 is the
    suffix. *)
Lemma timeRegex_match_groups s m :
  timeRegex_match s = Some m ->
  exists g1 g2, m = [Some s; Some g1; g2]
    /\ (g2 = undefined \/ exists p, g2 = Some p /\ is_am_pm p = true).
Proof.
  unfold timeRegex_match. destruct (match_with 2 s) as [m2|] eqn:H2.
  - intros [= <-]. eauto using match_with_groups.
  - eauto using match_with_groups.
Qed.

(** [minutes] is never a number: [parseInt(minutes)] is NaN. *)
Lemma capture2_parseInt g2 :
  g2 = undefined \/ (exists p, g2 = Some p /\ is_am_pm p = true) ->
  parseInt g2 = NaN.
Proof.
  intros [-> | (p & -> & Hp)]; [reflexivity | now apply am_pm_parseInt].
Qed.

Lemma capture2_no_digit_end g2 :
  g2 = undefined \/ (exists p, g2 = Some p /\ is_am_pm p = true) ->
  ends_with_digit (ToString g2) = false
  /\ is_empty (ToString g2) = false.
Proof.
  intros [-> | (p & -> & Hp)]; [now split|]. simpl. split.
  - now apply am_pm_not_digit_end.
  - now destruct p.
Qed.

(** What [normalizeTime] computes for an input that matches: [period] is
    [undefined], so no conversion takes place; [minutes] is the suffix
    group, so its range is never checked, and it is printed after the
    colon. *)
Lemma normalizeTime_matched timeStr m :
  timeRegex_match (trim timeStr) = Some m ->
  normalizeTime timeStr =
    let hours := parseInt (index m 1) in
    if num_lt hours (Num 0) || num_gt hours (Num 23)
    then Abrupt time_out_of_range
    else Normal (padStart0 2 (num_toString hours) ++ ":"
                 ++ ToString (index m 2)).
Proof.
  intros H. unfold normalizeTime. rewrite H.
  destruct (timeRegex_match_groups _ _ H) as (g1 & g2 & -> & Hg).
  cbn [index nth opt_toUpperCase option_map undefined truthy].
  rewrite (capture2_parseInt g2 Hg). cbn [num_lt num_gt].
  now rewrite !orb_false_r.
Qed.

Lemma ends_with_digit_app a b :
  is_empty b = false -> ends_with_digit (a ++ b) = ends_with_digit b.
Proof.
  intros Hb. induction a as [|c r IH]; [reflexivity|].
  simpl. rewrite IH.
  destruct (r ++ b) eqn:E; [|reflexivity].
  destruct r; simpl in E; [subst b|]; discriminate.
Qed.

Lemma is_HH_MM_digit_end r : is_HH_MM r = true -> ends_with_digit r = true.
Proof.
  destruct r as [|a [|b [|c [|d [|e [|f r]]]]]]; simpl; try discriminate.
  intros H. now apply andb_prop in H as [_ H].
Qed.

Lemma normalizeTime_never_HH_MM timeStr r :
  normalizeTime timeStr = Normal r -> is_HH_MM r = false.
Proof.
  intros H.
  destruct (timeRegex_match (trim timeStr)) as [m|] eqn:Hm.
  - rewrite (normalizeTime_matched _ _ Hm) in H. cbv zeta in H.
    destruct (timeRegex_match_groups _ _ Hm) as (g1 & g2 & -> & Hg).
    destruct (capture2_no_digit_end g2 Hg) as [Hd He].
    destruct (_ || _); [discriminate|]. injection H as <-.
    destruct (is_HH_MM _) eqn:E; [|reflexivity].
    apply is_HH_MM_digit_end in E.
    cbn [index nth] in E.
    rewrite ends_with_digit_app in E by reflexivity.
    change (String ":" (ToString g2)) with (":" ++ ToString g2) in E.
    rewrite ends_with_digit_app in E by exact He.
    congruence.
  - unfold normalizeTime in H. rewrite Hm in H. discriminate.
Qed.

(** C1.  What the code returns on the four examples; the specification
    wants "14:30", "00:00", "12:00" and "23:59".  No input at all makes
    the code return a string of the shape [HH:MM]: the regular expression
    has two capture groups, the time and the suffix, and the code reads
    the minutes from group 2 and the suffix from group 4. *)
Theorem normalizeTime_examples :
  normalizeTime "2:30 PM" = Normal "02:PM"
  /\ normalizeTime "12:00 AM" = Normal "12:AM"
  /\ normalizeTime "12:00 PM" = Normal "12:PM"
  /\ normalizeTime "23:59" = Normal "23:undefined"
  /\ normalizeTime_spec "2:30 PM" = Normal "14:30"
  /\ normalizeTime_spec "12:00 AM" = Normal "00:00"
  /\ normalizeTime_spec "12:00 PM" = Normal "12:00"
  /\ normalizeTime_spec "23:59" = Normal "23:59"
  /\ forall timeStr r : string,
       normalizeTime timeStr = Normal r -> is_HH_MM r = false.
Proof.
  do 8 (split; [vm_compute; reflexivity|]).
  exact normalizeTime_never_HH_MM.
Qed.

Lemma normalizeTime_examples_witness :
  normalizeTime "2:30 PM" = Normal "02:PM" /\ is_HH_MM "02:PM" = false.
Proof.
  split; [vm_compute; reflexivity|].
  apply (proj2 (proj2 (proj2 (proj2 (proj2 (proj2 (proj2 (proj2
           normalizeTime_examples))))))) "2:30 PM").
  vm_compute. reflexivity.
Defined.

(** C2.  An input outside the shape is rejected with the format error, and
    one whose hour field is above 23 with the range error; but the minutes
    are never checked and the hour is checked as written, before any
    conversion: "12:75" and "13:00 PM" are accepted, where the
    specification rejects both with the range error. *)
Theorem normalizeTime_rejections :
  normalizeTime "12:75" = Normal "12:undefined"
  /\ normalizeTime "13:00 PM" = Normal "13:PM"
  /\ normalizeTime_spec "12:75" = Abrupt time_out_of_range
  /\ normalizeTime_spec "13:00 PM" = Abrupt time_out_of_range
  /\ normalizeTime "9:5" = Abrupt invalid_time_format
  /\ normalizeTime "25:00" = Abrupt time_out_of_range
  /\ (forall timeStr : string,
        timeRegex_match (trim timeStr) = None <->
        normalizeTime timeStr = Abrupt invalid_time_format)
  /\ (forall (timeStr : string) (m : list value),
        timeRegex_match (trim timeStr) = Some m ->
        normalizeTime timeStr = Abrupt time_out_of_range <->
        num_gt (parseInt (index m 1)) (Num 23) = true
        \/ num_lt (parseInt (index m 1)) (Num 0) = true).
Proof.
  do 6 (split; [vm_compute; reflexivity|]).
  split.
  - intros timeStr. split.
    + intros H. unfold normalizeTime. now rewrite H.
    + intros H. destruct (timeRegex_match (trim timeStr)) as [m|] eqn:Hm;
        [|reflexivity].
      rewrite (normalizeTime_matched _ _ Hm) in H. cbv zeta in H.
      destruct (_ || _); discriminate.
  - intros timeStr m Hm. rewrite (normalizeTime_matched _ _ Hm). cbv zeta.
    destruct (num_lt _ _) eqn:Hl, (num_gt _ _) eqn:Hg; simpl;
      split; auto; intros H; try discriminate; destruct H; discriminate.
Qed.

Lemma normalizeTime_rejections_witness :
  timeRegex_match (trim "25:00") = Some [Some "25:00"; Some "25:00"; None]
  /\ normalizeTime "25:00" = Abrupt time_out_of_range.
Proof.
  split; [vm_compute; reflexivity|].
  apply (proj2 (proj2 (proj2 (proj2 (proj2 (proj2 (proj2
           normalizeTime_rejections)))))) "25:00"
           [Some "25:00"; Some "25:00"; None]).
  - vm_compute. reflexivity.
  - left. vm_compute. reflexivity.
Defined.

(** ** Dates *)

Section Calendar.

Local Open Scope Z_scope.

Lemma civil_from_days_bounds z :
  match civil_from_days z with
  | (_, m, d) => (1 <= m <= 12) /\ (1 <= d <= 31)
  end.
Proof.
  unfold civil_from_days. cbv zeta.
  set (doe := z + 719468 - (z + 719468) / 146097 * 146097).
  assert (0 <= doe < 146097)
    by (subst doe; Z.to_euclidean_division_equations; lia).
  clearbody doe.
  destruct (_ <? 10) eqn:E; [apply Z.ltb_lt in E | apply Z.ltb_ge in E];
    Z.to_euclidean_division_equations; lia.
Qed.

Lemma civil_of_era era yoe doy :
  0 <= yoe <= 399 -> 0 <= doy <= 365 ->
  (doy = 365 ->
   (yoe + 1) mod 4 = 0 /\ ((yoe + 1) mod 100 <> 0 \/ yoe = 399)) ->
  let doe := yoe * 365 + yoe / 4 - yoe / 100 + doy in
  (era * 146097 + doe) / 146097 = era
  /\ (doe - doe / 1460 + doe / 36524 - doe / 146096) / 365 = yoe.
Proof.
  intros Hy Hd Hl doe. subst doe.
  split; Z.to_euclidean_division_equations; lia.
Qed.

Lemma is_leap_true y :
  is_leap y = true -> (y mod 4 = 0 /\ y mod 100 <> 0) \/ y mod 400 = 0.
Proof.
  unfold is_leap. intros H. apply orb_prop in H as [H | H].
  - apply andb_prop in H as [H1 H2]. apply Z.eqb_eq in H1.
    apply negb_true_iff, Z.eqb_neq in H2. now left.
  - apply Z.eqb_eq in H. now right.
Qed.

Lemma days_in_month_cases y m d :
  1 <= d <= days_in_month y m ->
  1 <= d <= 31
  /\ (m = 4 \/ m = 6 \/ m = 9 \/ m = 11 -> d <= 30)
  /\ (m = 2 ->
      d <= 28
      \/ (d = 29 /\ ((y mod 4 = 0 /\ y mod 100 <> 0) \/ y mod 400 = 0))).
Proof.
  unfold days_in_month. intros Hd.
  destruct (m =? 2) eqn:E2.
  - apply Z.eqb_eq in E2. subst m.
    destruct (is_leap y) eqn:El; [apply is_leap_true in El|]; lia.
  - apply Z.eqb_neq in E2.
    destruct ((m =? 4) || (m =? 6) || (m =? 9) || (m =? 11)) eqn:E;
      [lia|].
    repeat (apply orb_false_elim in E as [E ?]).
    repeat match goal with
           | H : (_ =? _) = false |- _ => apply Z.eqb_neq in H
           end.
    lia.
Qed.

(** The day number of a date of the calendar gives the date back. *)
Lemma civil_from_days_from_civil y m d :
  1 <= m <= 12 -> 1 <= d <= days_in_month y m ->
  civil_from_days (days_from_civil y m d) = (y, m, d).
Proof.
  intros Hm Hd. apply days_in_month_cases in Hd as (Hd & H30 & Hfeb).
  unfold days_from_civil. cbv zeta.
  set (y' := if m <=? 2 then y - 1 else y).
  set (m' := if m >? 2 then m - 3 else m + 9).
  assert (Hy' : y' = if m <=? 2 then y - 1 else y) by reflexivity.
  assert (Hm' : m' = if m >? 2 then m - 3 else m + 9) by reflexivity.
  clearbody y' m'.
  set (era := y' / 400). set (yoe := y' - era * 400).
  assert (Hyoe : 0 <= yoe <= 399)
    by (subst yoe era; Z.to_euclidean_division_equations; lia).
  assert (Hy'' : y' = era * 400 + yoe) by (subst yoe; lia).
  clearbody yoe. clearbody era.
  set (doy := (153 * m' + 2) / 5 + d - 1).
  assert (Hdoy :
    0 <= doy <= 365
    /\ (doy = 365 ->
        (yoe + 1) mod 4 = 0 /\ ((yoe + 1) mod 100 <> 0 \/ yoe = 399))
    /\ (5 * doy + 2) / 153 = m'
    /\ doy - (153 * m' + 2) / 5 + 1 = d).
  { subst doy.
    destruct (m <=? 2) eqn:E1; [apply Z.leb_le in E1 | apply Z.leb_gt in E1];
      (destruct (m >? 2) eqn:E2;
       [apply Z.gtb_lt in E2 | rewrite Z.gtb_ltb in E2; apply Z.ltb_ge in E2]);
      try lia.
    - assert (m = 1 \/ m = 2) as [-> | ->] by lia; subst m';
        Z.to_euclidean_division_equations; lia.
    - assert (m = 3 \/ m = 4 \/ m = 5 \/ m = 6 \/ m = 7 \/ m = 8 \/ m = 9
              \/ m = 10 \/ m = 11 \/ m = 12) as Hc by lia.
      repeat (destruct Hc as [-> | Hc]); try subst m; subst m';
        Z.to_euclidean_division_equations; lia. }
  destruct Hdoy as (Hd1 & Hd2 & Hd3 & Hd4).
  clearbody doy.
  unfold civil_from_days. cbv zeta.
  replace (era * 146097 + (yoe * 365 + yoe / 4 - yoe / 100 + doy)
           - 719468 + 719468)
    with (era * 146097 + (yoe * 365 + yoe / 4 - yoe / 100 + doy)) by lia.
  destruct (civil_of_era era yoe doy Hyoe Hd1 Hd2) as [He Hy2].
  cbv zeta in He, Hy2. rewrite He.
  replace (era * 146097 + (yoe * 365 + yoe / 4 - yoe / 100 + doy)
           - era * 146097)
    with (yoe * 365 + yoe / 4 - yoe / 100 + doy) by lia.
  rewrite Hy2.
  replace (yoe * 365 + yoe / 4 - yoe / 100 + doy
           - (365 * yoe + yoe / 4 - yoe / 100)) with doy by lia.
  rewrite Hd3, Hd4.
  destruct (m <=? 2) eqn:E1; [apply Z.leb_le in E1 | apply Z.leb_gt in E1];
    (destruct (m >? 2) eqn:E2;
     [apply Z.gtb_lt in E2 | rewrite Z.gtb_ltb in E2; apply Z.ltb_ge in E2]);
    try lia.
  - subst m'.
    replace (m + 9 <? 10) with false by (symmetry; apply Z.ltb_ge; lia).
    replace (m + 9 - 9 <=? 2) with true by (symmetry; apply Z.leb_le; lia).
    repeat f_equal; lia.
  - subst m'.
    replace (m - 3 <? 10) with true by (symmetry; apply Z.ltb_lt; lia).
    replace (m - 3 + 3 <=? 2) with false by (symmetry; apply Z.leb_gt; lia).
    repeat f_equal; lia.
Qed.

End Calendar.

(** *** Printed numbers *)

Lemma string_of_uint_digits u : all is_digit (NilEmpty.string_of_uint u) = true.
Proof. induction u; simpl; auto. Qed.

Lemma all_app p a b : all p (a ++ b) = all p a && all p b.
Proof.
  induction a as [|c r IH]; simpl; [reflexivity|].
  now rewrite IH, andb_assoc.
Qed.

Lemma all_weaken (p q : ascii -> bool) s :
  (forall c, p c = true -> q c = true) -> all p s = true -> all q s = true.
Proof.
  intros Hpq. induction s as [|c r IH]; simpl; [reflexivity|]; intros H.
  apply andb_prop in H as [Hc Hr]. now rewrite (Hpq c Hc), IH.
Qed.

Lemma all_zeros n : all is_digit (string_of_list_ascii (repeat "0"%char n)) = true.
Proof. induction n; simpl; auto. Qed.

Lemma pad_digits n z : all is_digit (pad n z) = true.
Proof.
  unfold pad, padStart0. rewrite all_app, all_zeros. simpl.
  unfold NilZero.string_of_uint.
  destruct (N.to_uint _); try apply string_of_uint_digits; reflexivity.
Qed.

Lemma date_unit_not_T c : date_unit c = true -> Ascii.eqb c "T" = false.
Proof. by_cases_on_unit c. Qed.

Lemma digit_date_unit c : is_digit c = true -> date_unit c = true.
Proof. unfold date_unit. now intros ->. Qed.

Lemma pad_date_units n z : all date_unit (pad n z) = true.
Proof. exact (all_weaken _ _ _ digit_date_unit (pad_digits n z)). Qed.

Lemma year_string_date_units y : all date_unit (year_string y) = true.
Proof.
  unfold year_string.
  destruct (_ && _); [apply pad_date_units|].
  destruct (_ <? _)%Z; simpl; apply pad_date_units.
Qed.

Lemma utc_date_string_units t : all date_unit (utc_date_string t) = true.
Proof.
  unfold utc_date_string.
  destruct (civil_from_days _) as [[y m] d].
  rewrite !all_app, year_string_date_units, !pad_date_units. reflexivity.
Qed.

Lemma before_first_app sep a b :
  all (fun c => negb (Ascii.eqb c sep)) a = true ->
  before_first sep (a ++ String sep b) = a.
Proof.
  induction a as [|c r IH]; simpl.
  - now rewrite Ascii.eqb_refl.
  - intros H. apply andb_prop in H as [Hc Hr].
    apply negb_true_iff in Hc. now rewrite Hc, IH.
Qed.

(** [toISOString().split("T")[0]] is the printed UTC date. *)
Lemma date_portion t : before_first "T" (toISOString t) = utc_date_string t.
Proof.
  unfold toISOString.
  change (utc_date_string t ++ "T" ++ utc_clock_string t ++ "Z")
    with (utc_date_string t ++ String "T" (utc_clock_string t ++ "Z")).
  apply before_first_app.
  apply (all_weaken date_unit); [|apply utc_date_string_units].
  intros c Hc. now rewrite (date_unit_not_T c Hc).
Qed.

Lemma normalizeDate_parsed h dateStr :
  normalizeDate h dateStr =
    match Date_parse h dateStr with
    | None => Abrupt invalid_date_format
    | Some t => Normal (utc_date_string t)
    end.
Proof.
  unfold normalizeDate. destruct (Date_parse h dateStr); [|reflexivity].
  now rewrite date_portion.
Qed.

(** *** The shape of the printed date *)

Lemma pad4_table :
  forallb (fun n => digits_only 4 (pad 4 (Z.of_nat n)))
    (seq 0 (Z.to_nat 10000)) = true.
Proof. vm_compute. reflexivity. Qed.

Lemma pad2_table :
  forallb (fun n => digits_only 2 (pad 2 (Z.of_nat n)))
    (seq 0 (Z.to_nat 100)) = true.
Proof. vm_compute. reflexivity. Qed.

Lemma table_lookup (f : Z -> bool) (bound z : Z) :
  forallb (fun n => f (Z.of_nat n)) (seq 0 (Z.to_nat bound)) = true ->
  (0 <= z < bound)%Z -> f z = true.
Proof.
  intros Ht Hz. rewrite forallb_forall in Ht.
  rewrite <- (Z2Nat.id z) by lia. apply Ht, in_seq. lia.
Qed.

Lemma pad4_year y : (0 <= y <= 9999)%Z -> digits_only 4 (pad 4 y) = true.
Proof.
  intros H. apply (table_lookup (fun z => digits_only 4 (pad 4 z)) 10000);
    [exact pad4_table | lia].
Qed.

Lemma pad2_small z : (0 <= z <= 99)%Z -> digits_only 2 (pad 2 z) = true.
Proof.
  intros H. apply (table_lookup (fun z => digits_only 2 (pad 2 z)) 100);
    [exact pad2_table | lia].
Qed.

Lemma is_YYYY_MM_DD_parts a b c :
  digits_only 4 a = true -> digits_only 2 b = true ->
  digits_only 2 c = true ->
  is_YYYY_MM_DD (a ++ "-" ++ b ++ "-" ++ c) = true.
Proof.
  unfold digits_only.
  destruct a as [|a1 [|a2 [|a3 [|a4 [|a5 a]]]]]; try discriminate.
  destruct b as [|b1 [|b2 [|b3 b]]]; try discriminate.
  destruct c as [|c1 [|c2 [|c3 c]]]; try discriminate.
  simpl. intros Ha Hb Hc.
  repeat match goal with
         | H : _ && _ = true |- _ => apply andb_prop in H as [? H]
         end.
  repeat match goal with H : is_digit _ = true |- _ => rewrite H; clear H end.
  reflexivity.
Qed.

Lemma utc_date_string_shape t :
  (0 <= utc_year t <= 9999)%Z -> is_YYYY_MM_DD (utc_date_string t) = true.
Proof.
  unfold utc_year, utc_date_string.
  pose proof (civil_from_days_bounds (t / msPerDay)) as Hb.
  destruct (civil_from_days _) as [[y m] d]. destruct Hb as [Hm Hd].
  intros Hy. unfold year_string.
  replace ((0 <=? y)%Z && (y <=? 9999)%Z) with true
    by (symmetry; apply andb_true_intro; split; apply Z.leb_le; lia).
  apply is_YYYY_MM_DD_parts;
    [apply pad4_year | apply pad2_small | apply pad2_small]; lia.
Qed.

(** *** Expanded years *)

Lemma holds_from_lookup (f : Z -> bool) (n : nat) : forall z i,
  holds_from f n z = true ->
  (z <= i < z + Z.of_nat n)%Z -> f i = true.
Proof.
  induction n as [|n IH]; intros z i H Hi; [lia|].
  cbn [holds_from] in H. destruct (f z) eqn:E; [|discriminate].
  destruct (Z.eq_dec i z) as [-> | Hne]; [exact E|].
  apply (IH (z + 1)%Z); [exact H | lia].
Qed.

Lemma pad6_table :
  holds_from (fun y => digits_only 6 (pad 6 y)) (Z.to_nat 300000) 0 = true.
Proof. vm_compute. reflexivity. Qed.

Lemma pad6_year y : (0 <= y < 300000)%Z -> digits_only 6 (pad 6 y) = true.
Proof.
  intros H.
  apply (holds_from_lookup (fun y => digits_only 6 (pad 6 y))
           (Z.to_nat 300000) 0 y pad6_table).
  rewrite Z2Nat.id; lia.
Qed.

Lemma civil_from_days_year z :
  (- 100000000 <= z <= 100000000)%Z ->
  match civil_from_days z with
  | (y, _, _) => (- 300000 < y < 300000)%Z
  end.
Proof.
  intros Hz. unfold civil_from_days. cbv zeta.
  set (era := ((z + 719468) / 146097)%Z).
  set (doe := (z + 719468 - era * 146097)%Z).
  assert (0 <= doe < 146097)%Z
    by (subst doe era; Z.to_euclidean_division_equations; lia).
  assert (- 700 < era < 700)%Z
    by (subst era; Z.to_euclidean_division_equations; lia).
  clearbody doe era.
  destruct (_ <=? 2)%Z; Z.to_euclidean_division_equations; lia.
Qed.

Lemma is_signed_date_parts sg a b c :
  Ascii.eqb sg "+" || Ascii.eqb sg "-" = true ->
  digits_only 6 a = true -> digits_only 2 b = true ->
  digits_only 2 c = true ->
  is_signed_date (String sg (a ++ "-" ++ b ++ "-" ++ c)) = true
  /\ is_YYYY_MM_DD (String sg (a ++ "-" ++ b ++ "-" ++ c)) = false.
Proof.
  unfold digits_only.
  destruct a as [|a1 [|a2 [|a3 [|a4 [|a5 [|a6 [|a7 a]]]]]]]; try discriminate.
  destruct b as [|b1 [|b2 [|b3 b]]]; try discriminate.
  destruct c as [|c1 [|c2 [|c3 c]]]; try discriminate.
  intros Hs Ha Hb Hc. split; [|reflexivity].
  unfold is_signed_date. rewrite Hs.
  cbn [append take drop digits_only String.length Nat.eqb andb all] in *.
  repeat match goal with
         | H : _ && _ = true |- _ => apply andb_prop in H as [? H]
         end.
  repeat match goal with H : is_digit _ = true |- _ => rewrite H; clear H end.
  reflexivity.
Qed.

Lemma Date_parse_clipped h s t :
  Date_parse h s = Some t -> (Z.abs t <= 8640000000000000)%Z.
Proof.
  assert (Hc : forall u, TimeClip u = Some t ->
                         (Z.abs t <= 8640000000000000)%Z).
  { intros u. unfold TimeClip.
    destruct (Z.abs u <=? 8640000000000000)%Z eqn:E; [|discriminate].
    intros [= ->]. now apply Z.leb_le. }
  unfold Date_parse.
  destruct (parse_iso h s) as [u|]; [apply Hc|].
  destruct (has_digit s); [|discriminate].
  destruct (legacy_parse h s) as [u|]; [apply Hc | discriminate].
Qed.

Lemma utc_date_string_signed t :
  (Z.abs t <= 8640000000000000)%Z ->
  ~ (0 <= utc_year t <= 9999)%Z ->
  is_signed_date (utc_date_string t) = true
  /\ is_YYYY_MM_DD (utc_date_string t) = false.
Proof.
  unfold utc_year, utc_date_string. intros Ht.
  assert (Hz : (- 100000000 <= t / msPerDay <= 100000000)%Z)
    by (unfold msPerDay; Z.to_euclidean_division_equations; lia).
  pose proof (civil_from_days_bounds (t / msPerDay)) as Hb.
  pose proof (civil_from_days_year (t / msPerDay) Hz) as Hy.
  destruct (civil_from_days _) as [[y m] d]. destruct Hb as [Hm Hd].
  intros Hout. unfold year_string.
  destruct ((0 <=? y)%Z && (y <=? 9999)%Z) eqn:E.
  { apply andb_prop in E as [E1 E2]. apply Z.leb_le in E1, E2. lia. }
  destruct (y <? 0)%Z eqn:En;
    [apply Z.ltb_lt in En | apply Z.ltb_ge in En];
    cbn [append];
    (apply is_signed_date_parts;
     [reflexivity | apply pad6_year | apply pad2_small | apply pad2_small]);
    lia.
Qed.

(** *** Time values of one UTC day print the same date *)

Lemma utc_date_string_day t day :
  (day * msPerDay <= t < (day + 1) * msPerDay)%Z ->
  utc_date_string t = utc_date_string (day * msPerDay).
Proof.
  intros H. unfold utc_date_string.
  replace (t / msPerDay)%Z with day
    by (unfold msPerDay in *; Z.to_euclidean_division_equations; lia).
  replace (day * msPerDay / msPerDay)%Z with day
    by (unfold msPerDay in *; Z.to_euclidean_division_equations; lia).
  reflexivity.
Qed.

Lemma TimeClip_near t :
  (Z.abs t <= 8640000000000000)%Z -> TimeClip t = Some t.
Proof.
  intros H. unfold TimeClip.
  now replace (Z.abs t <=? 8640000000000000)%Z with true
    by (symmetry; now apply Z.leb_le).
Qed.

(** A host whose fallback reads "March 5, 2024" as midnight of a local
    time that is [off] ms ahead of UTC. *)
Lemma normalizeDate_march_5 h off :
  legacy_parse h "March 5, 2024" = Some (march_5_2024 - off)%Z ->
  ((- msPerDay < off <= 0)%Z ->
   normalizeDate h "March 5, 2024" = Normal "2024-03-05")
  /\ ((0 < off <= msPerDay)%Z ->
      normalizeDate h "March 5, 2024" = Normal "2024-03-04").
Proof.
  intros Hl. rewrite normalizeDate_parsed.
  unfold Date_parse. change (parse_iso h "March 5, 2024") with (@None Z).
  change (has_digit "March 5, 2024") with true. cbv iota.
  rewrite Hl. unfold march_5_2024, msPerDay.
  split; intros Hoff; (rewrite TimeClip_near by lia).
  - rewrite (utc_date_string_day _ 19787) by (unfold msPerDay; lia).
    reflexivity.
  - rewrite (utc_date_string_day _ 19786) by (unfold msPerDay; lia).
    reflexivity.
Qed.

(** *** Canonical dates are fixed *)

Lemma digits_app n : forall acc a v rest,
  digits n acc a = Some (v, "") ->
  digits n acc (a ++ rest) = Some (v, rest).
Proof.
  induction n as [|n IH]; intros acc a v rest; simpl.
  - now intros [= -> ->].
  - destruct a as [|c r]; [discriminate|]. simpl.
    destruct (is_digit c); [apply IH | discriminate].
Qed.

Lemma reads_back4_table :
  forallb (fun n => reads_back 4 (Z.of_nat n)) (seq 0 (Z.to_nat 10000)) = true.
Proof. vm_compute. reflexivity. Qed.

Lemma reads_back2_table :
  forallb (fun n => reads_back 2 (Z.of_nat n)) (seq 0 (Z.to_nat 100)) = true.
Proof. vm_compute. reflexivity. Qed.

Lemma reads_back_digits n z rest :
  reads_back n z = true -> digits n 0 (pad n z ++ rest) = Some (z, rest).
Proof.
  unfold reads_back. intros H. apply digits_app.
  destruct (digits n 0 (pad n z)) as [[v [|c r]]|]; try discriminate.
  apply Z.eqb_eq in H. now subst v.
Qed.

Lemma digits_pad4 y rest :
  (0 <= y <= 9999)%Z -> digits 4 0 (pad 4 y ++ rest) = Some (y, rest).
Proof.
  intros H. apply reads_back_digits.
  apply (table_lookup (reads_back 4) 10000); [exact reads_back4_table | lia].
Qed.

Lemma digits_pad2 z rest :
  (0 <= z <= 99)%Z -> digits 2 0 (pad 2 z ++ rest) = Some (z, rest).
Proof.
  intros H. apply reads_back_digits.
  apply (table_lookup (reads_back 2) 100); [exact reads_back2_table | lia].
Qed.

Lemma parse_year_digit a r :
  is_digit a = true -> parse_year (String a r) = digits 4 0 (String a r).
Proof.
  destruct a as [[] [] [] [] [] [] [] []]; intros H;
    try (vm_compute in H; discriminate H); reflexivity.
Qed.

Lemma parse_year_pad4 y rest :
  (0 <= y <= 9999)%Z -> parse_year (pad 4 y ++ rest) = Some (y, rest).
Proof.
  intros H. rewrite <- (digits_pad4 y rest H).
  pose proof (pad4_year y H) as Hd. unfold digits_only in Hd.
  destruct (pad 4 y) as [|a r]; [discriminate|].
  apply andb_prop in Hd as [_ Hd]. simpl in Hd.
  apply andb_prop in Hd as [Ha _]. now apply parse_year_digit.
Qed.

Lemma append_empty s : s ++ "" = s.
Proof. induction s as [|c r IH]; simpl; [reflexivity | now rewrite IH]. Qed.

Lemma parse_month_day_pad m d :
  (0 <= m <= 99)%Z -> (0 <= d <= 99)%Z ->
  parse_month_day ("-" ++ pad 2 m ++ "-" ++ pad 2 d) = Some (m, d, "").
Proof.
  intros Hm Hd. change ("-" ++ pad 2 m ++ "-" ++ pad 2 d)
    with (String "-" (pad 2 m ++ String "-" (pad 2 d))).
  cbn [parse_month_day]. rewrite (digits_pad2 m _ Hm).
  rewrite <- (append_empty (pad 2 d)). now rewrite (digits_pad2 d _ Hd).
Qed.

Lemma legal_date_bounds y m d :
  legal_date y m d = true ->
  (1 <= m <= 12)%Z /\ (1 <= d <= days_in_month y m)%Z.
Proof.
  unfold legal_date. intros H.
  repeat (apply andb_prop in H as [H ?]).
  repeat match goal with H : (_ <=? _)%Z = true |- _ => apply Z.leb_le in H end.
  lia.
Qed.

Lemma days_from_civil_range y m d :
  (0 <= y <= 9999)%Z -> (1 <= m <= 12)%Z -> (1 <= d <= 31)%Z ->
  (- 720000 <= days_from_civil y m d <= 3000000)%Z.
Proof.
  intros Hy Hm Hd. unfold days_from_civil.
  destruct (m <=? 2)%Z, (m >? 2)%Z; cbv zeta;
    Z.to_euclidean_division_equations; lia.
Qed.

Lemma parse_iso_date h y m d :
  (0 <= y <= 9999)%Z -> legal_date y m d = true ->
  parse_iso h (iso_date y m d) = Some (days_from_civil y m d * msPerDay)%Z.
Proof.
  intros Hy Hl. destruct (legal_date_bounds y m d Hl) as [Hm Hd].
  assert (Hd31 : (d <= 31)%Z).
  { apply days_in_month_cases in Hd. lia. }
  unfold parse_iso, iso_date.
  rewrite (parse_year_pad4 y _ Hy).
  rewrite parse_month_day_pad by lia.
  rewrite Hl. unfold make_time_value. f_equal. lia.
Qed.

(** A canonical date of a year in 0..9999 normalizes to itself, on every
    host. *)
Lemma normalizeDate_canonical h y m d :
  (0 <= y <= 9999)%Z -> legal_date y m d = true ->
  normalizeDate h (iso_date y m d) = Normal (iso_date y m d).
Proof.
  intros Hy Hl. destruct (legal_date_bounds y m d Hl) as [Hm Hd].
  assert (Hd31 : (1 <= d <= 31)%Z).
  { apply days_in_month_cases in Hd. lia. }
  rewrite normalizeDate_parsed. unfold Date_parse.
  rewrite (parse_iso_date h y m d Hy Hl).
  pose proof (days_from_civil_range y m d Hy Hm Hd31) as Hr.
  rewrite TimeClip_near by (unfold msPerDay; lia).
  f_equal. unfold utc_date_string.
  replace (days_from_civil y m d * msPerDay / msPerDay)%Z
    with (days_from_civil y m d)
    by (unfold msPerDay; Z.to_euclidean_division_equations; lia).
  rewrite (civil_from_days_from_civil y m d Hm Hd).
  unfold iso_date, year_string.
  now replace ((0 <=? y)%Z && (y <=? 9999)%Z) with true
    by (symmetry; apply andb_true_intro; split; apply Z.leb_le; lia).
Qed.

(** C3, the claim as it stands, fails: where local time is one hour ahead of
    UTC, "March 5, 2024" is midnight local time, which is 23:00 UTC of the
    day before, and the normalizer returns "2024-03-04"; and a parseable
    date with an expanded year comes back with that year, not as
    [YYYY-MM-DD]. *)
Lemma normalizeDate_march_5_east_of_utc :
  normalizeDate (V8.fixed_zone 3600000) "March 5, 2024" = Normal "2024-03-04"
  /\ normalizeDate (V8.fixed_zone 3600000) "March 5, 2024"
     <> Normal "2024-03-05"
  /\ normalizeDate (V8.fixed_zone 3600000) "+010000-01-01"
     = Normal "+010000-01-01"
  /\ is_YYYY_MM_DD "+010000-01-01" = false.
Proof.
  assert (H : normalizeDate (V8.fixed_zone 3600000) "March 5, 2024"
              = Normal "2024-03-04") by (vm_compute; reflexivity).
  split; [exact H|]. split; [rewrite H; discriminate|].
  split; vm_compute; reflexivity.
Qed.

(** C3, amended.  On every host, [normalizeDate] fails with "Invalid date
    format" when the string does not parse, and otherwise returns the date
    portion of the UTC ISO representation of the parsed instant; that
    portion has the shape [YYYY-MM-DD] when the UTC year of the instant
    lies in 0..9999, and outside it is a sign, a year of six digits and
    [-MM-DD].  "2024-03-05" and "2024-03-05T10:00:00Z" give "2024-03-05"
    and "not-a-date" fails, on every host; where the fallback reads
    "March 5, 2024" as midnight local time the result is "2024-03-05" when
    local time is not ahead of UTC and "2024-03-04" when it is. *)
Theorem normalizeDate_utc_date (h : host) :
  (forall dateStr : string,
     match Date_parse h dateStr with
     | None => normalizeDate h dateStr = Abrupt invalid_date_format
     | Some t =>
         normalizeDate h dateStr = Normal (before_first "T" (toISOString t))
         /\ before_first "T" (toISOString t) = utc_date_string t
         /\ ((0 <= utc_year t <= 9999)%Z ->
             is_YYYY_MM_DD (utc_date_string t) = true)
         /\ (~ (0 <= utc_year t <= 9999)%Z ->
             is_signed_date (utc_date_string t) = true
             /\ is_YYYY_MM_DD (utc_date_string t) = false)
     end)
  /\ normalizeDate h "2024-03-05" = Normal "2024-03-05"
  /\ normalizeDate h "2024-03-05T10:00:00Z" = Normal "2024-03-05"
  /\ normalizeDate h "not-a-date" = Abrupt invalid_date_format
  /\ (forall off : Z,
        legacy_parse h "March 5, 2024" = Some (march_5_2024 - off)%Z ->
        ((- msPerDay < off <= 0)%Z ->
         normalizeDate h "March 5, 2024" = Normal "2024-03-05")
        /\ ((0 < off <= msPerDay)%Z ->
            normalizeDate h "March 5, 2024" = Normal "2024-03-04")).
Proof.
  split.
  { intros dateStr. unfold normalizeDate.
    destruct (Date_parse h dateStr) as [t|] eqn:Hp; [|reflexivity].
    split; [reflexivity|]. split; [apply date_portion|].
    split; [apply utc_date_string_shape|].
    apply utc_date_string_signed. exact (Date_parse_clipped h dateStr t Hp). }
  split; [vm_compute; reflexivity|].
  split; [vm_compute; reflexivity|].
  split; [reflexivity|].
  exact (normalizeDate_march_5 h).
Qed.

Lemma normalizeDate_utc_date_witness :
  normalizeDate (V8.fixed_zone (-18000000)) "March 5, 2024"
    = Normal "2024-03-05"
  /\ normalizeDate (V8.fixed_zone 3600000) "March 5, 2024"
     = Normal "2024-03-04"
  /\ is_signed_date "+010000-01-01" = true.
Proof.
  pose proof (normalizeDate_utc_date (V8.fixed_zone (-18000000)))
    as (_ & _ & _ & _ & Hwest).
  pose proof (normalizeDate_utc_date (V8.fixed_zone 3600000))
    as (Hshape & _ & _ & _ & Heast).
  split; [|split].
  - apply (Hwest (-18000000)%Z).
    + vm_compute. reflexivity.
    + unfold msPerDay. lia.
  - apply (Heast 3600000%Z).
    + vm_compute. reflexivity.
    + unfold msPerDay. lia.
  - specialize (Hshape "+010000-01-01").
    change (Date_parse (V8.fixed_zone 3600000) "+010000-01-01")
      with (Some 253402300800000%Z) in Hshape.
    destruct Hshape as (_ & _ & _ & Hsigned).
    change (utc_date_string 253402300800000) with "+010000-01-01" in Hsigned.
    apply Hsigned. vm_compute. intros [_ H]. now apply H.
Defined.

(** ** Lookups *)

Lemma find_absent {A} (f : A -> bool) (l : list A) :
  (forall x, In x l -> f x = false) -> find f l = None.
Proof.
  intros H. destruct (find f l) as [x|] eqn:E; [|reflexivity].
  apply find_some in E as [Hin Hf]. rewrite (H x Hin) in Hf. discriminate.
Qed.

Lemma find_present {A} (f : A -> bool) (l : list A) :
  (exists x, In x l /\ f x = true) -> exists y, find f l = Some y.
Proof.
  intros (x & Hin & Hf). destruct (find f l) as [y|] eqn:E; [eauto|].
  rewrite (find_none _ _ E x Hin) in Hf. discriminate.
Qed.

Lemma prefix_app t b : prefix t (t ++ b) = true.
Proof.
  induction t as [|c r IH]; simpl; [now destruct b|].
  destruct (ascii_dec c c); [exact IH | contradiction].
Qed.

Lemma includes_unfold s t :
  includes s t
  = prefix t s || match s with
                  | EmptyString => false
                  | String _ r => includes r t
                  end.
Proof. now destruct s. Qed.

Lemma includes_app a t b : includes (a ++ t ++ b) t = true.
Proof.
  induction a as [|c r IH].
  - simpl append. now rewrite includes_unfold, prefix_app.
  - simpl. rewrite IH. apply orb_true_r.
Qed.

(** *** The cast of a slug

    Lower-casing and trimming commute and each is idempotent: a slug that
    was lower-cased and trimmed passes the cast of a filter unchanged. *)

Lemma lower_char_white c : is_white (lower_char c) = is_white c.
Proof. by_cases_on_unit c. Qed.

Lemma toLowerCase_trimStart s :
  toLowerCase (trimStart s) = trimStart (toLowerCase s).
Proof.
  induction s as [|c r IH]; simpl; [reflexivity|].
  rewrite lower_char_white. now destruct (is_white c).
Qed.

Lemma is_empty_toLowerCase s : is_empty (toLowerCase s) = is_empty s.
Proof. now destruct s. Qed.

Lemma toLowerCase_trimEnd s :
  toLowerCase (trimEnd s) = trimEnd (toLowerCase s).
Proof.
  induction s as [|c r IH]; simpl; [reflexivity|].
  rewrite lower_char_white, <- IH, is_empty_toLowerCase.
  now destruct (is_white c && is_empty (trimEnd r)).
Qed.

Lemma toLowerCase_trim s : toLowerCase (trim s) = trim (toLowerCase s).
Proof. unfold trim. now rewrite toLowerCase_trimEnd, toLowerCase_trimStart. Qed.

Lemma lower_char_twice c : lower_char (lower_char c) = lower_char c.
Proof. by_cases_on_unit c. Qed.

Lemma toLowerCase_twice s : toLowerCase (toLowerCase s) = toLowerCase s.
Proof.
  induction s as [|c r IH]; simpl; [reflexivity|].
  now rewrite lower_char_twice, IH.
Qed.

Lemma trimEnd_twice s : trimEnd (trimEnd s) = trimEnd s.
Proof.
  induction s as [|c r IH]; simpl; [reflexivity|].
  destruct (is_white c && is_empty (trimEnd r)) eqn:E; [reflexivity|].
  simpl. now rewrite IH, E.
Qed.

Lemma trimStart_trimEnd_trimStart s :
  trimStart (trimEnd (trimStart s)) = trimEnd (trimStart s).
Proof.
  induction s as [|c r IH]; simpl; [reflexivity|].
  destruct (is_white c) eqn:Hw; [exact IH|].
  simpl. rewrite Hw. simpl. now rewrite Hw.
Qed.

Lemma trim_twice s : trim (trim s) = trim s.
Proof.
  unfold trim. now rewrite trimStart_trimEnd_trimStart, trimEnd_twice.
Qed.

Lemma looked_up_twice s : looked_up (looked_up s) = looked_up s.
Proof.
  unfold looked_up.
  now rewrite (toLowerCase_trim (toLowerCase s)), toLowerCase_twice,
    trim_twice.
Qed.

Lemma looked_up_sanitized s :
  looked_up (toLowerCase (trim s)) = toLowerCase (trim s).
Proof.
  rewrite toLowerCase_trim. apply looked_up_twice.
Qed.

(** ** The Booking hook *)

Section BookingHook.

Import BookingModel.

Variable w : world.
Variable booking : document.

Let id := eventId (doc booking).

Lemma pre_save_unmodified :
  isModified booking "eventId" = false ->
  run (pre_save w booking) = (Normal Next, []).
Proof. intros H. unfold run, pre_save. now rewrite H. Qed.

Lemma pre_save_trace :
  isModified booking "eventId" = true ->
  snd (run (pre_save w booking)) = [Query (FindById id)].
Proof.
  intros H. unfold run, pre_save. rewrite H. fold id.
  unfold bind, try_catch, findById, ask, bind, log, of_failure. simpl.
  destruct (query_failure w (FindById id)); simpl; [reflexivity|].
  now destruct (find _ _).
Qed.

Lemma pre_save_lookup_fails e :
  isModified booking "eventId" = true ->
  query_failure w (FindById id) = Some e ->
  fst (run (pre_save w booking)) = Normal (NextError lookup_failed).
Proof.
  intros H Hq. unfold run, pre_save. rewrite H. fold id.
  unfold bind, try_catch, findById, ask, bind, log, of_failure. simpl.
  now rewrite Hq.
Qed.

Lemma pre_save_event_absent :
  isModified booking "eventId" = true ->
  query_failure w (FindById id) = None ->
  (forall e, In e (events w) -> _id e <> id) ->
  fst (run (pre_save w booking)) = Normal (NextError (event_missing id)).
Proof.
  intros H Hq Habs. unfold run, pre_save. rewrite H. fold id.
  unfold bind, try_catch, findById, ask, bind, log, of_failure. simpl.
  rewrite Hq. simpl. rewrite find_absent; [reflexivity|].
  intros x Hx. apply String.eqb_neq. now apply Habs.
Qed.

Lemma pre_save_event_present :
  isModified booking "eventId" = true ->
  query_failure w (FindById id) = None ->
  (exists e, In e (events w) /\ _id e = id) ->
  fst (run (pre_save w booking)) = Normal Next.
Proof.
  intros H Hq (e & Hin & He). unfold run, pre_save. rewrite H. fold id.
  unfold bind, try_catch, findById, ask, bind, log, of_failure. simpl.
  rewrite Hq. simpl.
  destruct (find_present (fun x => String.eqb (_id x) id) (events w))
    as [y ->]; [|reflexivity].
  exists e. split; [exact Hin | now apply String.eqb_eq].
Qed.

End BookingHook.

(** C6.  A Booking write that does not modify [eventId] makes no lookup and
    goes on.  One that sets or changes it makes exactly one lookup, of the
    Event with that identifier: when the lookup throws, the hook fails the
    write with the ValidationError "Invalid event ID format or database
    error"; when no Event has the identifier, with a ValidationError whose
    message holds the identifier; otherwise the write goes on.  The two
    errors differ. *)
Theorem booking_pre_save_checks_event
    (w : world) (b : BookingModel.document) :
  let id := BookingModel.eventId (BookingModel.doc b) in
  let hook := run (BookingModel.pre_save w b) in
  (BookingModel.isModified b "eventId" = false ->
   hook = (Normal BookingModel.Next, []))
  /\ (BookingModel.isModified b "eventId" = true ->
      snd hook = [Query (FindById id)]
      /\ (forall e, query_failure w (FindById id) = Some e ->
            fst hook
            = Normal (BookingModel.NextError BookingModel.lookup_failed))
      /\ (query_failure w (FindById id) = None ->
          (forall e, In e (events w) -> _id e <> id) ->
          fst hook
          = Normal (BookingModel.NextError (BookingModel.event_missing id)))
      /\ (query_failure w (FindById id) = None ->
          (exists e, In e (events w) /\ _id e = id) ->
          fst hook = Normal BookingModel.Next))
  /\ (exists msg, BookingModel.event_missing id
                  = JsError "ValidationError" msg
                  /\ includes msg id = true)
  /\ (exists msg, BookingModel.lookup_failed = JsError "ValidationError" msg)
  /\ BookingModel.event_missing id <> BookingModel.lookup_failed.
Proof.
  intros id hook. subst hook.
  split; [apply pre_save_unmodified|].
  split.
  { intros H. split; [now apply pre_save_trace|].
    split; [intros e; now apply pre_save_lookup_fails|].
    split; [now apply pre_save_event_absent | now apply pre_save_event_present]. }
  split.
  { eexists. split; [reflexivity|]. apply (includes_app "Event with ID "). }
  split; [eexists; reflexivity|].
  unfold BookingModel.event_missing, BookingModel.lookup_failed.
  intros H. injection H as H. discriminate.
Qed.

Lemma booking_pre_save_checks_event_witness :
  run (BookingModel.pre_save Samples.up
         (Samples.booking "65f0a1b2c3d4e5f601234569" ["email"]))
  = (Normal BookingModel.Next, [])
  /\ fst (run (BookingModel.pre_save Samples.up
                 (Samples.booking "65f0a1b2c3d4e5f601234569"
                    ["eventId"; "email"])))
     = Normal (BookingModel.NextError
                 (BookingModel.event_missing "65f0a1b2c3d4e5f601234569"))
  /\ fst (run (BookingModel.pre_save Samples.down
                 (Samples.booking "65f0a1b2c3d4e5f601234561"
                    ["eventId"; "email"])))
     = Normal (BookingModel.NextError BookingModel.lookup_failed)
  /\ fst (run (BookingModel.pre_save Samples.up
                 (Samples.booking "65f0a1b2c3d4e5f601234562"
                    ["eventId"; "email"])))
     = Normal BookingModel.Next.
Proof.
  split.
  { destruct (booking_pre_save_checks_event Samples.up
                (Samples.booking "65f0a1b2c3d4e5f601234569" ["email"]))
      as (Hsame & _).
    apply Hsame. reflexivity. }
  split.
  { destruct (booking_pre_save_checks_event Samples.up
                (Samples.booking "65f0a1b2c3d4e5f601234569"
                   ["eventId"; "email"]))
      as (_ & Hmod & _).
    destruct (Hmod eq_refl) as (_ & _ & Habsent & _).
    apply Habsent; [reflexivity|].
    simpl. intros e [<- | [<- | [<- | []]]]; discriminate. }
  split.
  { destruct (booking_pre_save_checks_event Samples.down
                (Samples.booking "65f0a1b2c3d4e5f601234561"
                   ["eventId"; "email"]))
      as (_ & Hmod & _).
    destruct (Hmod eq_refl) as (_ & Hfails & _).
    apply (Hfails (new_Error "connection reset")). reflexivity. }
  destruct (booking_pre_save_checks_event Samples.up
              (Samples.booking "65f0a1b2c3d4e5f601234562"
                 ["eventId"; "email"]))
    as (_ & Hmod & _).
  destruct (Hmod eq_refl) as (_ & _ & _ & Hpresent).
  apply Hpresent; [reflexivity|].
  exists Samples.cloud_day. simpl. auto.
Defined.

(** ** The similar-events action *)

Lemma tags_in_spec wanted x :
  tags_in wanted x = true <-> exists t, In t (tags x) /\ In t wanted.
Proof.
  unfold tags_in. rewrite existsb_exists. split.
  - intros (t & Ht & Hw). apply existsb_exists in Hw as (t' & Hin & He).
    apply String.eqb_eq in He. subst t'. eauto.
  - intros (t & Ht & Hw). exists t. split; [exact Ht|].
    apply existsb_exists. exists t. split; [exact Hw | apply String.eqb_refl].
Qed.

(** The value [getSimilarEventsBySlug] resolves to. *)
Lemma getSimilarEventsBySlug_value w s :
  fst (run (Actions.getSimilarEventsBySlug w s)) =
  Normal
    match connect_failure w, query_failure w (FindOneBySlug (looked_up s)),
          find (fun x => String.eqb (slug x) (looked_up s)) (events w) with
    | None, None, Some e =>
        match query_failure w (FindSimilar (_id e) (tags e)) with
        | None =>
            filter (fun x => negb (String.eqb (_id x) (_id e))
                             && tags_in (tags e) x) (events w)
        | Some _ => []
        end
    | _, _, _ => []
    end.
Proof.
  unfold run, Actions.getSimilarEventsBySlug, try_catch, connectDB,
    findOne_slug, find_similar, ask, bind, log, of_failure.
  change (cast_slug s) with (looked_up s).
  simpl.
  destruct (connect_failure w); simpl; [reflexivity|].
  destruct (query_failure w (FindOneBySlug (looked_up s))); simpl;
    [reflexivity|].
  destruct (find _ (events w)) as [e|]; simpl; [|reflexivity].
  now destruct (query_failure w (FindSimilar _ _)).
Qed.

Lemma similar_filter_In e (l : list IEvent) x :
  In x (filter (fun x => negb (String.eqb (_id x) (_id e))
                         && tags_in (tags e) x) l) <->
  In x l /\ _id x <> _id e /\ shares_tag x e.
Proof.
  rewrite filter_In, andb_true_iff, negb_true_iff, String.eqb_neq,
    tags_in_spec. reflexivity.
Qed.

(** C7.  [getSimilarEventsBySlug] never throws: for every slug and every
    world it resolves to a sequence.  The lookup asks for the slug
    lower-cased and trimmed, as Mongoose casts the filter.  When the source
    event cannot be resolved (the connection fails, the lookup fails, or no
    event is stored under that slug) the sequence is empty, and so it is
    when the event resolves and the query by tags fails. *)
Theorem getSimilarEventsBySlug_never_throws (w : world) (s : string) :
  (exists l, fst (run (Actions.getSimilarEventsBySlug w s)) = Normal l)
  /\ (unresolved w s ->
      fst (run (Actions.getSimilarEventsBySlug w s)) = Normal [])
  /\ (forall e, resolves w s e ->
        query_failure w (FindSimilar (_id e) (tags e)) <> None ->
        fst (run (Actions.getSimilarEventsBySlug w s)) = Normal []).
Proof.
  rewrite getSimilarEventsBySlug_value. split; [eauto|]. split.
  - intros [H | [H | H]].
    + now destruct (connect_failure w).
    + destruct (connect_failure w); [reflexivity|].
      now destruct (query_failure w (FindOneBySlug (looked_up s))).
    + rewrite find_absent.
      * now destruct (connect_failure w),
          (query_failure w (FindOneBySlug (looked_up s))).
      * intros x Hx. apply String.eqb_neq. now apply H.
  - intros e (Hc & Hq & Hf) Ht. rewrite Hc, Hq, Hf.
    now destruct (query_failure w (FindSimilar (_id e) (tags e))).
Qed.

Lemma getSimilarEventsBySlug_never_throws_witness :
  fst (run (Actions.getSimilarEventsBySlug Samples.up "no-such-event"))
  = Normal []
  /\ fst (run (Actions.getSimilarEventsBySlug Samples.unconfigured "web-conf"))
     = Normal []
  /\ fst (run (Actions.getSimilarEventsBySlug Samples.down " Web-Conf"))
     = Normal []
  /\ fst (run (Actions.getSimilarEventsBySlug Samples.tags_down "Web-Conf"))
     = Normal [].
Proof.
  split; [|split; [|split]].
  - apply (getSimilarEventsBySlug_never_throws Samples.up "no-such-event").
    right. right. simpl.
    intros e [<- | [<- | [<- | []]]]; discriminate.
  - apply (getSimilarEventsBySlug_never_throws Samples.unconfigured "web-conf").
    left. discriminate.
  - apply (getSimilarEventsBySlug_never_throws Samples.down " Web-Conf").
    right. left. discriminate.
  - apply (proj2 (proj2 (getSimilarEventsBySlug_never_throws
                           Samples.tags_down "Web-Conf")) Samples.web_conf).
    + repeat split.
    + discriminate.
Defined.

(** C8, the claim as it stands, fails: "web-conf" resolves to an event and
    another event of the collection shares the tag "cloud" with it, but the
    query by tags is rejected by the storage and the action returns the
    empty sequence. *)
Lemma getSimilarEventsBySlug_tags_query_rejected :
  resolves Samples.tags_down "web-conf" Samples.web_conf
  /\ In Samples.cloud_day (events Samples.tags_down)
  /\ _id Samples.cloud_day <> _id Samples.web_conf
  /\ shares_tag Samples.cloud_day Samples.web_conf
  /\ fst (run (Actions.getSimilarEventsBySlug Samples.tags_down "web-conf"))
     = Normal []
  /\ ~ (forall l,
          fst (run (Actions.getSimilarEventsBySlug Samples.tags_down
                      "web-conf")) = Normal l ->
          forall x, In x l <->
                    In x (events Samples.tags_down)
                    /\ _id x <> _id Samples.web_conf
                    /\ shares_tag x Samples.web_conf).
Proof.
  assert (Hin : In Samples.cloud_day (events Samples.tags_down))
    by (right; now left).
  assert (Hne : _id Samples.cloud_day <> _id Samples.web_conf)
    by discriminate.
  assert (Hsh : shares_tag Samples.cloud_day Samples.web_conf).
  { exists "cloud". split; [now left | right; now left]. }
  split; [repeat split|]. split; [exact Hin|]. split; [exact Hne|].
  split; [exact Hsh|]. split; [reflexivity|].
  intros H. apply (proj2 (H [] eq_refl Samples.cloud_day)). auto.
Qed.

(** C8, amended.  When the slug resolves to an event (the lookup asks for
    the slug lower-cased and trimmed), [getSimilarEventsBySlug] returns a
    sequence without the resolved event: exactly the events of the
    collection, other than the resolved one, that share a tag with it when
    the query by tags completes, and the empty sequence when that query
    fails. *)
Theorem getSimilarEventsBySlug_shared_tags
    (w : world) (s : string) (e : IEvent) :
  resolves w s e ->
  exists l,
    fst (run (Actions.getSimilarEventsBySlug w s)) = Normal l
    /\ (query_failure w (FindSimilar (_id e) (tags e)) = None ->
        forall x, In x l <->
                  In x (events w) /\ _id x <> _id e /\ shares_tag x e)
    /\ (query_failure w (FindSimilar (_id e) (tags e)) <> None -> l = [])
    /\ ~ In e l.
Proof.
  intros (Hc & Hq & Hf).
  rewrite getSimilarEventsBySlug_value, Hc, Hq, Hf.
  destruct (query_failure w (FindSimilar (_id e) (tags e))) as [t|].
  - exists []. split; [reflexivity|]. split; [discriminate|].
    split; [reflexivity | intros []].
  - eexists. split; [reflexivity|].
    split; [intros _ x; apply similar_filter_In|].
    split; [congruence|].
    intros H. apply similar_filter_In in H as (_ & Hne & _). now apply Hne.
Qed.

Lemma getSimilarEventsBySlug_shared_tags_witness :
  exists l,
    fst (run (Actions.getSimilarEventsBySlug Samples.up " Web-Conf "))
    = Normal l
    /\ (forall x, In x l <->
                  In x (events Samples.up)
                  /\ _id x <> _id Samples.web_conf
                  /\ shares_tag x Samples.web_conf)
    /\ ~ In Samples.web_conf l.
Proof.
  destruct (getSimilarEventsBySlug_shared_tags Samples.up " Web-Conf "
              Samples.web_conf) as (l & Hl & Hin & _ & Hnot).
  - repeat split.
  - exists l. split; [exact Hl|]. split; [exact (Hin eq_refl) | exact Hnot].
Defined.

Example similar_to_web_conf :
  fst (run (Actions.getSimilarEventsBySlug Samples.up "Web-Conf"))
  = Normal [Samples.cloud_day].
Proof. reflexivity. Qed.

(** ** The route handler *)

Lemma guarded_slug_blank p :
  missing_or_blank p = true <-> Route.guarded_slug p = None.
Proof.
  destruct p as [|s|]; simpl; try tauto.
  destruct s as [|c r]; [simpl; tauto|].
  cbn [is_empty orb]. destruct (String.eqb _ ""); split; congruence.
Qed.

Lemma guarded_slug_present p :
  missing_or_blank p = false ->
  exists s, p = Route.PString s /\ Route.guarded_slug p = Some s.
Proof.
  intros H. destruct (Route.guarded_slug p) as [s|] eqn:E.
  - destruct p as [|s'|]; try discriminate. simpl in E.
    destruct (_ || _); [discriminate|]. injection E as ->. eauto.
  - apply guarded_slug_blank in E. congruence.
Qed.

Lemma failure_response_message e :
  Route.status (failure_response e) = 500%Z
  /\ Route.message (failure_response e) = failure_message e.
Proof.
  destruct e as [n msg|]; simpl; [|now split].
  now destruct (includes msg "MONGODB_URI").
Qed.

Lemma GET_catch_run w e tr :
  Route.GET_catch w e tr
  = (Normal (failure_response e), (tr ++ failure_log w e)%list).
Proof.
  unfold Route.GET_catch, failure_log, bind, log, ret.
  destruct (String.eqb (NODE_ENV w) "development");
    [|rewrite app_nil_r];
    (destruct e as [n msg|]; simpl;
     [now destruct (includes msg "MONGODB_URI") | reflexivity]).
Qed.

(** What [GET] answers and which storage calls it makes. *)
Lemma GET_run w p :
  run (Route.GET w p) =
  match connect_failure w with
  | Some e => (Normal (failure_response e), Connect :: failure_log w e)
  | None =>
      match Route.guarded_slug p with
      | None =>
          (Normal (Route.json 400 "Invalid or missing slug parameter"
                     None None), [Connect])
      | Some s =>
          let q := FindOneBySlug (toLowerCase (trim s)) in
          match query_failure w q with
          | Some e =>
              (Normal (failure_response e),
               Connect :: Query q :: failure_log w e)
          | None =>
              (Normal
                 match find (fun x => String.eqb (slug x)
                                        (toLowerCase (trim s))) (events w)
                 with
                 | None => Route.json 404 "Event not found" None None
                 | Some ev =>
                     Route.json 200 "Event fetched successfully" None
                       (Some ev)
                 end,
               [Connect; Query q])
          end
      end
  end.
Proof.
  unfold run, Route.GET, try_catch, Route.GET_try, connectDB, findOne_slug,
    ask, bind, log, of_failure, throw, ret.
  simpl app.
  destruct (connect_failure w) as [e|]; [now rewrite GET_catch_run|].
  destruct (Route.guarded_slug p) as [s|]; [|reflexivity].
  cbv zeta.
  change (cast_slug (toLowerCase (trim s)))
    with (looked_up (toLowerCase (trim s))).
  rewrite looked_up_sanitized.
  destruct (query_failure w _) as [e|]; [now rewrite GET_catch_run|].
  now destruct (find _ (events w)).
Qed.

Lemma in_failure_log w e q : ~ In (Query q) (failure_log w e).
Proof.
  unfold failure_log. destruct (String.eqb _ _); simpl; [|tauto].
  intros [H | []]. discriminate.
Qed.

(** C9, the claim as it stands, fails: the handler connects before it
    looks at the slug, so a blank slug is answered 500, not 400, when the
    connection fails, here for want of a connection string. *)
Lemma GET_blank_slug_unconfigured :
  missing_or_blank (Route.PString "   ") = true
  /\ connect_failure Samples.unconfigured <> None
  /\ fst (run (Route.GET Samples.unconfigured (Route.PString "   ")))
     = Normal (Route.json 500 "Database connection error" None None)
  /\ ~ (exists resp,
          fst (run (Route.GET Samples.unconfigured (Route.PString "   ")))
          = Normal resp
          /\ Route.status resp = 400%Z).
Proof.
  split; [reflexivity|]. split; [discriminate|]. split; [reflexivity|].
  intros (resp & Hr & Hs). vm_compute in Hr. injection Hr as <-.
  discriminate Hs.
Qed.

(** C9, amended.  [GET] always answers, and it connects first.  When the
    connection fails it answers 500, whatever the slug, and makes no
    query.  Once connected, a missing or blank slug is answered 400
    without a query; any other slug is looked up trimmed and lower-cased,
    and that is the only query: no event with that slug is answered 404
    "Event not found", an event 200 with the event, a failing lookup 500.
    The message of a 500 is "Database connection error" exactly when the
    failure is an [Error] whose message names MONGODB_URI. *)
Theorem GET_outcomes (w : world) (p : Route.param) :
  exists (resp : Route.response) (tr : list op),
    run (Route.GET w p) = (Normal resp, tr)
    /\ (forall e, connect_failure w = Some e ->
          Route.status resp = 500%Z
          /\ Route.message resp = failure_message e
          /\ forall q, ~ In (Query q) tr)
    /\ (connect_failure w = None -> missing_or_blank p = true ->
        Route.status resp = 400%Z /\ forall q, ~ In (Query q) tr)
    /\ (forall s, connect_failure w = None -> p = Route.PString s ->
          missing_or_blank p = false ->
          let sanitized := toLowerCase (trim s) in
          (forall q, In (Query q) tr <-> q = FindOneBySlug sanitized)
          /\ (forall e, query_failure w (FindOneBySlug sanitized) = Some e ->
                Route.status resp = 500%Z
                /\ Route.message resp = failure_message e)
          /\ (query_failure w (FindOneBySlug sanitized) = None ->
              (forall ev, In ev (events w) -> slug ev <> sanitized) ->
              Route.status resp = 404%Z
              /\ Route.message resp = "Event not found")
          /\ (query_failure w (FindOneBySlug sanitized) = None ->
              forall ev,
                find (fun x => String.eqb (slug x) sanitized) (events w)
                = Some ev ->
                Route.status resp = 200%Z /\ Route.event resp = Some ev))
    /\ (forall e,
          failure_message e = "Database connection error" <->
          exists n msg, e = JsError n msg
                        /\ includes msg "MONGODB_URI" = true).
Proof.
  rewrite GET_run.
  assert (Hmsg : forall e,
    failure_message e = "Database connection error" <->
    exists n msg, e = JsError n msg /\ includes msg "MONGODB_URI" = true).
  { intros [n msg|]; simpl.
    - destruct (includes msg "MONGODB_URI") eqn:E; split; eauto;
        try discriminate.
      intros (n' & msg' & [= -> ->] & H). congruence.
    - split; [discriminate|]. intros (n & msg & H & _). discriminate. }
  destruct (connect_failure w) as [e|] eqn:Hc.
  { do 2 eexists. split; [reflexivity|].
    split.
    { intros e' [= <-]. destruct (failure_response_message e) as [-> ->].
      repeat split. intros q [H | H]; [discriminate|].
      now apply in_failure_log in H. }
    repeat split; try discriminate; apply Hmsg. }
  destruct (missing_or_blank p) eqn:Hb.
  { apply guarded_slug_blank in Hb as Hg. rewrite Hg.
    do 2 eexists. split; [reflexivity|].
    split; [discriminate|].
    split.
    { intros _ _. split; [reflexivity|].
      intros q [H | []]. discriminate. }
    split; [discriminate | exact Hmsg]. }
  destruct (guarded_slug_present p Hb) as (s & -> & Hg). rewrite Hg.
  cbv zeta.
  destruct (query_failure w (FindOneBySlug (toLowerCase (trim s))))
    as [e|] eqn:Hq.
  { do 2 eexists. split; [reflexivity|].
    split; [discriminate|]. split; [discriminate|].
    split; [|exact Hmsg].
    intros s' _ [= <-] _. rewrite Hq. split.
    { intros q. split.
      - intros [H | [H | H]]; [discriminate | now injection H |].
        now apply in_failure_log in H.
      - intros ->. right. now left. }
    split.
    { intros e' [= <-]. apply failure_response_message. }
    split; discriminate. }
  do 2 eexists. split; [reflexivity|].
  split; [discriminate|]. split; [discriminate|].
  split; [|exact Hmsg].
  intros s' _ [= <-] _. rewrite Hq. split.
  { intros q. split.
    - intros [H | [H | []]]; [discriminate | now injection H].
    - intros ->. right. now left. }
  split; [discriminate|].
  split.
  - intros _ Habs. rewrite find_absent; [now split|].
    intros x Hx. apply String.eqb_neq. now apply Habs.
  - intros _ ev ->. now split.
Qed.

Lemma GET_outcomes_witness :
  exists resp tr,
    run (Route.GET Samples.up (Route.PString "  Web-Conf ")) = (Normal resp, tr)
    /\ Route.status resp = 200%Z
    /\ Route.event resp = Some Samples.web_conf
    /\ (forall q, In (Query q) tr <-> q = FindOneBySlug "web-conf").
Proof.
  destruct (GET_outcomes Samples.up (Route.PString "  Web-Conf "))
    as (resp & tr & Hrun & _ & _ & Hslug & _).
  exists resp, tr. split; [exact Hrun|].
  destruct (Hslug "  Web-Conf " eq_refl eq_refl eq_refl)
    as (Hq & _ & _ & Hfound).
  destruct (Hfound eq_refl Samples.web_conf eq_refl) as [Hs He].
  repeat split; try assumption; apply Hq.
Defined.

Example GET_blank_slug :
  fst (run (Route.GET Samples.up (Route.PString "   ")))
  = Normal (Route.json 400 "Invalid or missing slug parameter" None None).
Proof. reflexivity. Qed.

Example GET_storage_down :
  run (Route.GET Samples.down (Route.PString "web-conf"))
  = (Normal (Route.json 500 "Event fetching failed"
               (Some "connection reset") None),
     [Connect; Query (FindOneBySlug "web-conf");
      ConsoleError (new_Error "connection reset")]).
Proof. reflexivity. Qed.

(** * Further properties of the code *)
(** ** More on the identifier normalizer *)

(** [[a-z0-9]] after lower-casing is what survives: the other code units
    are dropped or turned into hyphens. *)
Lemma white_unlettered c :
  is_white c = true -> unlettered c = true.
Proof. by_cases_on_unit c. Qed.

Lemma special_unlettered c : special c = true -> unlettered c = true.
Proof. by_cases_on_unit c. Qed.

Lemma hyphen_unlettered c : is_hyphen c = true -> unlettered c = true.
Proof. by_cases_on_unit c. Qed.

Lemma unlettered_trimStart s : all unlettered (trimStart s) = all unlettered s.
Proof.
  induction s as [|c r IH]; simpl; [reflexivity|].
  destruct (is_white c) eqn:Hw; [|reflexivity].
  now rewrite IH, (white_unlettered c Hw).
Qed.

Lemma unlettered_trimEnd s : all unlettered (trimEnd s) = all unlettered s.
Proof.
  induction s as [|c r IH]; simpl; [reflexivity|].
  destruct (is_white c) eqn:Hw; simpl.
  - destruct (trimEnd r) eqn:E; simpl in *.
    + now rewrite <- IH, (white_unlettered c Hw).
    + now rewrite <- IH.
  - now rewrite IH.
Qed.

Lemma unlettered_remove s :
  all unlettered (remove_chars special s) = all unlettered s.
Proof.
  induction s as [|c r IH]; simpl; [reflexivity|].
  destruct (special c) eqn:Hs; simpl; rewrite IH; [|reflexivity].
  now rewrite (special_unlettered c Hs).
Qed.

Lemma unlettered_replace p s :
  (forall c, p c = true -> unlettered c = true) ->
  forall b, all unlettered (replace_runs p "-" b s) = all unlettered s.
Proof.
  intros Hp. induction s as [|c r IH]; intros b; simpl; [reflexivity|].
  destruct (p c) eqn:Hc.
  - rewrite (Hp c Hc). destruct b; simpl; apply IH.
  - simpl. now rewrite IH.
Qed.

Lemma unlettered_drop_final s :
  all unlettered (drop_final_hyphen s) = all unlettered s.
Proof.
  induction s as [|c r IH]; simpl; [reflexivity|].
  destruct (is_hyphen c) eqn:Hc; simpl.
  - destruct r; simpl in *; [now rewrite (hyphen_unlettered c Hc)|].
    now rewrite <- IH.
  - now rewrite IH.
Qed.

Lemma unlettered_strip s :
  all unlettered (strip_edge_hyphen s) = all unlettered s.
Proof.
  destruct s as [|c r]; [reflexivity|]. unfold strip_edge_hyphen.
  destruct (is_hyphen c) eqn:Hc.
  - rewrite unlettered_drop_final. simpl.
    now rewrite (hyphen_unlettered c Hc).
  - apply unlettered_drop_final.
Qed.

Lemma unlettered_toLowerCase t :
  all unlettered (toLowerCase t) = all plain t.
Proof. induction t as [|c r IH]; simpl; [reflexivity|]. now rewrite IH. Qed.

Lemma unlettered_generateSlug t :
  all unlettered (generateSlug t) = all plain t.
Proof.
  unfold generateSlug, trim.
  rewrite unlettered_strip.
  rewrite (unlettered_replace is_hyphen _ hyphen_unlettered).
  rewrite (unlettered_replace is_white _ white_unlettered).
  now rewrite unlettered_remove, unlettered_trimEnd, unlettered_trimStart,
    unlettered_toLowerCase.
Qed.

(** X1.  [generateSlug] returns the empty string exactly for the titles
    none of whose characters lower-cases into [[a-z0-9]]: the empty title,
    titles of white space, of punctuation, of hyphens. *)
Theorem generateSlug_empty_iff (title : string) :
  generateSlug title = "" <-> all plain title = true.
Proof.
  split.
  - intros H. rewrite <- unlettered_generateSlug, H. reflexivity.
  - apply generateSlug_plain.
Qed.

Lemma generateSlug_empty_iff_witness :
  all plain " -- ?! " = true /\ generateSlug " -- ?! " = "".
Proof.
  split; [reflexivity|].
  apply (proj2 (generateSlug_empty_iff " -- ?! ")). reflexivity.
Defined.

(** *** Lengths *)

Lemma length_toLowerCase s : String.length (toLowerCase s) = String.length s.
Proof. induction s; simpl; congruence. Qed.

Lemma length_trimStart s : String.length (trimStart s) <= String.length s.
Proof.
  induction s as [|c r IH]; simpl; [lia|]. destruct (is_white c); simpl; lia.
Qed.

Lemma length_trimEnd s : String.length (trimEnd s) <= String.length s.
Proof.
  induction s as [|c r IH]; simpl; [lia|].
  destruct (is_white c && is_empty (trimEnd r)); simpl; lia.
Qed.

Lemma length_remove_chars p s :
  String.length (remove_chars p s) <= String.length s.
Proof.
  induction s as [|c r IH]; simpl; [lia|]. destruct (p c); simpl; lia.
Qed.

Lemma length_replace_runs p s : forall b,
  String.length (replace_runs p "-" b s) <= String.length s.
Proof.
  induction s as [|c r IH]; intros b; simpl; [lia|].
  pose proof (IH true). pose proof (IH false).
  destruct (p c); [destruct b|]; simpl; lia.
Qed.

Lemma length_drop_final_hyphen s :
  String.length (drop_final_hyphen s) <= String.length s.
Proof.
  induction s as [|c r IH]; simpl; [lia|].
  destruct (is_hyphen c && is_empty r); simpl; lia.
Qed.

Lemma length_strip_edge_hyphen s :
  String.length (strip_edge_hyphen s) <= String.length s.
Proof.
  destruct s as [|c r]; [simpl; lia|]. unfold strip_edge_hyphen.
  destruct (is_hyphen c).
  - pose proof (length_drop_final_hyphen r). simpl. lia.
  - apply length_drop_final_hyphen.
Qed.

(** X2.  A slug is never longer than its title: a title that passes the
    limit of 100 characters gives a slug of at most 100 characters. *)
Theorem generateSlug_length (title : string) :
  String.length (generateSlug title) <= String.length title
  /\ (String.length title <= 100 -> String.length (generateSlug title) <= 100).
Proof.
  assert (H : String.length (generateSlug title) <= String.length title).
  { unfold generateSlug, trim.
    pose proof (length_strip_edge_hyphen
      (replace_runs is_hyphen "-" false
         (replace_runs is_white "-" false
            (remove_chars special (trimEnd (trimStart (toLowerCase title))))))).
    pose proof (length_replace_runs is_hyphen
      (replace_runs is_white "-" false
         (remove_chars special (trimEnd (trimStart (toLowerCase title)))))
      false).
    pose proof (length_replace_runs is_white
      (remove_chars special (trimEnd (trimStart (toLowerCase title)))) false).
    pose proof (length_remove_chars special
      (trimEnd (trimStart (toLowerCase title)))).
    pose proof (length_trimEnd (trimStart (toLowerCase title))).
    pose proof (length_trimStart (toLowerCase title)).
    pose proof (length_toLowerCase title). lia. }
  split; [exact H | lia].
Qed.

Lemma generateSlug_length_witness :
  String.length (generateSlug "Hello, World! 2024") <= 100.
Proof.
  apply (proj2 (generateSlug_length "Hello, World! 2024")).
  vm_compute. repeat constructor.
Defined.

(** *** Case and outer white space *)

(** X3.  Titles that differ only in the case of their letters and in the
    white space around them get the same slug, which is the key the route
    handler looks up: [generateSlug] depends on the title through
    [title.trim().toLowerCase()] only. *)
Theorem generateSlug_case_and_margins (t1 t2 : string) :
  toLowerCase (trim t1) = toLowerCase (trim t2) ->
  generateSlug t1 = generateSlug t2.
Proof.
  intros H. unfold generateSlug.
  now rewrite <- !toLowerCase_trim, H.
Qed.

Lemma generateSlug_case_and_margins_witness :
  generateSlug "  Web CONF 2024 " = generateSlug "web conf 2024".
Proof.
  apply (generateSlug_case_and_margins "  Web CONF 2024 " "web conf 2024").
  reflexivity.
Defined.

(** *** Words *)

Lemma toLowerCase_app a b :
  toLowerCase (a ++ b) = toLowerCase a ++ toLowerCase b.
Proof. induction a as [|c r IH]; simpl; [reflexivity | now rewrite IH]. Qed.

Lemma all_white_toLowerCase w :
  all is_white (toLowerCase w) = all is_white w.
Proof.
  induction w as [|c r IH]; simpl; [reflexivity|].
  now rewrite lower_char_white, IH.
Qed.

Lemma trimEnd_before_clean x b :
  all slug_char b = true -> is_empty b = false -> trimEnd (x ++ b) = x ++ b.
Proof.
  intros Hb He. induction x as [|c r IH]; simpl.
  - now apply trimEnd_clean.
  - rewrite IH. destruct (r ++ b) eqn:E; [|now rewrite andb_false_r].
    destruct r; simpl in E; [subst b|]; discriminate.
Qed.

Lemma allowed_not_special s :
  all allowed s = true -> remove_chars special s = s.
Proof.
  induction s as [|c r IH]; simpl; [reflexivity|]. intros H.
  apply andb_prop in H as [Hc Hr]. rewrite special_allowed, Hc. simpl.
  now rewrite IH.
Qed.

Lemma slug_char_allowed c : slug_char c = true -> allowed c = true.
Proof. by_cases_on_unit c. Qed.

Lemma white_allowed c : is_white c = true -> allowed c = true.
Proof. by_cases_on_unit c. Qed.

Lemma replace_white_after_clean a s : forall b0,
  all slug_char a = true ->
  replace_runs is_white "-" b0 (a ++ s)
  = a ++ replace_runs is_white "-" (if is_empty a then b0 else false) s.
Proof.
  induction a as [|c r IH]; intros b0 H; simpl in *; [reflexivity|].
  apply andb_prop in H as [Hc Hr].
  rewrite (slug_char_not_white c Hc), (IH false Hr).
  now destruct r.
Qed.

Lemma replace_white_run w b :
  all is_white w = true -> all slug_char b = true ->
  replace_runs is_white "-" true (w ++ b) = b.
Proof.
  intros Hw Hb. induction w as [|c r IH]; simpl in *.
  - now apply replace_white_clean.
  - apply andb_prop in Hw as [Hc Hr]. rewrite Hc. auto.
Qed.

Lemma starts_with_hyphen_app a s :
  is_empty a = false -> starts_with_hyphen (a ++ s) = starts_with_hyphen a.
Proof. now destruct a. Qed.

Lemma ends_with_hyphen_app x b :
  is_empty b = false -> ends_with_hyphen (x ++ b) = ends_with_hyphen b.
Proof.
  intros He. induction x as [|c r IH]; [reflexivity|].
  simpl. rewrite IH. destruct (r ++ b) eqn:E; [|reflexivity].
  destruct r; simpl in E; [subst b|]; discriminate.
Qed.

Lemma adjacent_hyphens_app a s :
  adjacent_hyphens (a ++ s)
  = adjacent_hyphens a || (ends_with_hyphen a && starts_with_hyphen s)
    || adjacent_hyphens s.
Proof.
  induction a as [|c r IH]; [reflexivity|].
  simpl. rewrite IH. destruct r as [|c' r'].
  - simpl. now destruct (is_hyphen c), (starts_with_hyphen s).
  - simpl. destruct (is_hyphen c && is_hyphen c'); simpl; [reflexivity|].
    reflexivity.
Qed.

Lemma joined_canonical a b :
  canonical a = true -> is_empty a = false ->
  canonical b = true -> is_empty b = false ->
  canonical (a ++ "-" ++ b) = true.
Proof.
  intros Ha Hea Hb Heb.
  destruct (canonical_parts a Ha) as (Ha1 & Ha2 & Ha3 & Ha4).
  destruct (canonical_parts b Hb) as (Hb1 & Hb2 & Hb3 & Hb4).
  unfold canonical.
  rewrite all_app, Ha1. simpl all. rewrite Hb1.
  rewrite (starts_with_hyphen_app a _ Hea), Ha2.
  rewrite (ends_with_hyphen_app a ("-" ++ b)) by reflexivity.
  rewrite (ends_with_hyphen_app "-" b Heb), Hb3.
  rewrite adjacent_hyphens_app, Ha4, Ha3. simpl. now rewrite Hb2, Hb4.
Qed.

(** X4.  Two canonical words separated by white space give the two words
    joined by one hyphen, however long the white space is. *)
Theorem generateSlug_words (a w b : string) :
  canonical a = true -> is_empty a = false ->
  canonical b = true -> is_empty b = false ->
  all is_white w = true -> is_empty w = false ->
  generateSlug (a ++ w ++ b) = a ++ "-" ++ b.
Proof.
  intros Ha Hea Hb Heb Hw Hew.
  destruct (canonical_parts a Ha) as (Ha1 & Ha2 & _).
  destruct (canonical_parts b Hb) as (Hb1 & _).
  pose proof (joined_canonical a b Ha Hea Hb Heb) as Hj.
  destruct (canonical_parts _ Hj) as (_ & Hj2 & Hj3 & Hj4).
  unfold generateSlug, trim.
  rewrite !toLowerCase_app, (toLowerCase_clean a Ha1), (toLowerCase_clean b Hb1).
  assert (Hw' : all is_white (toLowerCase w) = true)
    by now rewrite all_white_toLowerCase.
  assert (Hew' : is_empty (toLowerCase w) = false)
    by now rewrite is_empty_toLowerCase.
  set (w' := toLowerCase w) in *. clearbody w'.
  replace (trimStart (a ++ w' ++ b)) with (a ++ w' ++ b).
  2:{ destruct a as [|c r]; [discriminate|]. simpl in *.
      apply andb_prop in Ha1 as [Hc _].
      now rewrite (slug_char_not_white c Hc). }
  replace (a ++ w' ++ b) with ((a ++ w') ++ b)
    by (clear; induction a; simpl; congruence).
  rewrite (trimEnd_before_clean _ b Hb1 Heb).
  replace ((a ++ w') ++ b) with (a ++ w' ++ b)
    by (clear; induction a; simpl; congruence).
  rewrite allowed_not_special.
  2:{ rewrite !all_app.
      rewrite (all_weaken _ _ _ slug_char_allowed Ha1),
        (all_weaken _ _ _ white_allowed Hw'),
        (all_weaken _ _ _ slug_char_allowed Hb1). reflexivity. }
  rewrite (replace_white_after_clean a _ false Ha1), Hea.
  destruct w' as [|c r]; [discriminate|].
  simpl in Hw'. apply andb_prop in Hw' as [Hc Hr].
  cbn [append replace_runs]. rewrite Hc.
  rewrite (replace_white_run r b Hr Hb1).
  change (a ++ String "-" b) with (a ++ "-" ++ b).
  rewrite (replace_hyphens_fixed _ false Hj4) by discriminate.
  now apply strip_edge_hyphen_fixed.
Qed.

Lemma generateSlug_words_witness :
  generateSlug ("web" ++ "   " ++ "conf-2024") = "web" ++ "-" ++ "conf-2024".
Proof.
  apply (generateSlug_words "web" "   " "conf-2024"); reflexivity.
Defined.

(** ** More on the time normalizer *)

Lemma am_pm_second_unit c :
  Ascii.eqb (canonicalize c) "M" = true -> c = "m"%char \/ c = "M"%char.
Proof. by_cases_on_unit c. Qed.

Lemma am_pm_values p :
  is_am_pm p = true ->
  In p ["am"; "aM"; "Am"; "AM"; "pm"; "pM"; "Pm"; "PM"].
Proof.
  destruct p as [|c1 [|c2 [|c3 r]]]; simpl; try discriminate.
  intros H. apply andb_prop in H as [H1 H2].
  destruct (am_pm_first_unit c1 H1) as [-> | [-> | [-> | ->]]];
    destruct (am_pm_second_unit c2 H2) as [-> | ->]; tauto.
Qed.

(** What follows the colon in a result. *)
Lemma capture2_values g2 :
  g2 = undefined \/ (exists p, g2 = Some p /\ is_am_pm p = true) ->
  In (ToString g2)
    ["undefined"; "am"; "aM"; "Am"; "AM"; "pm"; "pM"; "Pm"; "PM"].
Proof.
  intros [-> | (p & -> & Hp)]; [now left|].
  right. now apply am_pm_values.
Qed.

(** What precedes the colon in a result. *)
Lemma hours_values hours :
  num_lt hours (Num 0) || num_gt hours (Num 23) = false ->
  In (padStart0 2 (num_toString hours))
    ("NaN" :: map (fun n => padStart0 2 (num_toString (Num (Z.of_nat n))))
                (seq 0 24)).
Proof.
  destruct hours as [|z]; [now left|]. intros H. right.
  apply orb_false_elim in H as [H0 H23]. unfold num_gt in H23.
  simpl in H0, H23. apply Z.ltb_ge in H0, H23.
  apply in_map_iff. exists (Z.to_nat z). split.
  - now rewrite Z2Nat.id.
  - apply in_seq. lia.
Qed.

Lemma normalizeTime_result timeStr r :
  normalizeTime timeStr = Normal r ->
  exists hh tail,
    r = hh ++ ":" ++ tail
    /\ In hh ("NaN" :: map (fun n => padStart0 2
                                       (num_toString (Num (Z.of_nat n))))
                         (seq 0 24))
    /\ In tail ["undefined"; "am"; "aM"; "Am"; "AM"; "pm"; "pM"; "Pm"; "PM"].
Proof.
  intros H.
  destruct (timeRegex_match (trim timeStr)) as [m|] eqn:Hm.
  - rewrite (normalizeTime_matched _ _ Hm) in H. cbv zeta in H.
    destruct (timeRegex_match_groups _ _ Hm) as (g1 & g2 & -> & Hg).
    destruct (_ || _) eqn:Hr; [discriminate|]. injection H as <-.
    do 2 eexists. split; [reflexivity|]. split.
    + now apply hours_values.
    + now apply capture2_values.
  - unfold normalizeTime in H. rewrite Hm in H. discriminate.
Qed.

Lemma normalizeTime_result_rejected timeStr r :
  normalizeTime timeStr = Normal r ->
  normalizeTime r = Abrupt invalid_time_format.
Proof.
  intros H. destruct (normalizeTime_result _ _ H) as (hh & tail & -> & Hh & Ht).
  simpl in Hh, Ht.
  repeat (destruct Hh as [<- | Hh]; [|]); try contradiction;
    (repeat (destruct Ht as [<- | Ht]; [vm_compute; reflexivity|]);
     contradiction).
Qed.

(** X5.  [normalizeTime] never accepts what it returned: every result is an
    hour on two digits, a colon and then "undefined" or the suffix as it was
    typed, which the regular expression does not match.  A stored time that
    is normalized again is rejected with the format error. *)
Theorem normalizeTime_not_idempotent (timeStr r : string) :
  normalizeTime timeStr = Normal r ->
  normalizeTime r = Abrupt invalid_time_format.
Proof. apply normalizeTime_result_rejected. Qed.

Lemma normalizeTime_not_idempotent_witness :
  normalizeTime "9:30 am" = Normal "09:am"
  /\ normalizeTime "09:am" = Abrupt invalid_time_format.
Proof.
  split; [vm_compute; reflexivity|].
  apply (normalizeTime_not_idempotent "9:30 am" "09:am").
  vm_compute. reflexivity.
Defined.

(** ** More on the date normalizer *)

Section CalendarLegal.

Local Open Scope Z_scope.

Lemma doe_parts doe :
  0 <= doe < 146097 ->
  let yoe := (doe - doe / 1460 + doe / 36524 - doe / 146096) / 365 in
  let doy := doe - (365 * yoe + yoe / 4 - yoe / 100) in
  let mp := (5 * doy + 2) / 153 in
  let d := doy - (153 * mp + 2) / 5 + 1 in
  0 <= yoe <= 399 /\ 0 <= mp <= 11 /\ 1 <= d <= 31
  /\ (mp = 1 \/ mp = 3 \/ mp = 6 \/ mp = 8 -> d <= 30)
  /\ (mp = 11 -> d <= 29)
  /\ (mp = 11 -> d = 29 ->
      (yoe + 1) mod 4 = 0 /\ ((yoe + 1) mod 100 <> 0 \/ yoe = 399)).
Proof.
  intros H yoe doy mp d. subst d mp doy yoe.
  repeat split; Z.to_euclidean_division_equations; lia.
Qed.

Lemma is_leap_false y :
  is_leap y = false ->
  (y mod 4 <> 0 \/ y mod 100 = 0) /\ y mod 400 <> 0.
Proof.
  unfold is_leap. intros H. apply orb_false_elim in H as [H1 H2].
  apply Z.eqb_neq in H2. split; [|exact H2].
  apply andb_false_iff in H1 as [H1 | H1].
  - apply Z.eqb_neq in H1. now left.
  - apply negb_false_iff, Z.eqb_eq in H1. now right.
Qed.

(** Every day number is a date of the calendar. *)
Lemma civil_from_days_legal z :
  match civil_from_days z with
  | (y, m, d) => legal_date y m d = true
  end.
Proof.
  unfold civil_from_days. cbv zeta.
  set (era := (z + 719468) / 146097).
  set (doe := z + 719468 - era * 146097).
  assert (Hdoe : 0 <= doe < 146097)
    by (subst doe era; Z.to_euclidean_division_equations; lia).
  clearbody doe. clearbody era.
  pose proof (doe_parts doe Hdoe) as Hp. cbv zeta in Hp.
  set (yoe := (doe - doe / 1460 + doe / 36524 - doe / 146096) / 365) in *.
  set (doy := doe - (365 * yoe + yoe / 4 - yoe / 100)) in *.
  set (mp := (5 * doy + 2) / 153) in *.
  set (d := doy - (153 * mp + 2) / 5 + 1) in *.
  clearbody d. clearbody mp. clearbody doy. clearbody yoe.
  destruct Hp as (Hy & Hmp & Hd & H30 & H29 & Hleap).
  unfold legal_date, days_in_month.
  destruct (mp <? 10) eqn:E; [apply Z.ltb_lt in E | apply Z.ltb_ge in E].
  - replace (mp + 3 <=? 2) with false by (symmetry; apply Z.leb_gt; lia).
    replace (mp + 3 =? 2) with false by (symmetry; apply Z.eqb_neq; lia).
    destruct ((mp + 3 =? 4) || (mp + 3 =? 6) || (mp + 3 =? 9) || (mp + 3 =? 11))
      eqn:E30.
    + repeat (apply orb_prop in E30 as [E30 | E30]);
        apply Z.eqb_eq in E30;
        repeat (apply andb_true_intro; split); apply Z.leb_le; lia.
    + repeat (apply andb_true_intro; split); apply Z.leb_le; lia.
  - assert (mp = 10 \/ mp = 11) as [-> | ->] by lia.
    + simpl. repeat (apply andb_true_intro; split); try reflexivity;
        apply Z.leb_le; lia.
    + change (11 - 9) with 2. change (2 <=? 2) with true.
      change (2 =? 2) with true. cbv iota.
      destruct (is_leap (yoe + era * 400 + 1)) eqn:El; cbv iota.
      * repeat (apply andb_true_intro; split); try reflexivity;
          apply Z.leb_le; lia.
      * apply is_leap_false in El.
        assert (d <> 29).
        { intros Hd29. destruct (Hleap eq_refl Hd29) as [H4 H100].
          Z.to_euclidean_division_equations; lia. }
        repeat (apply andb_true_intro; split); try reflexivity;
          apply Z.leb_le; lia.
Qed.

End CalendarLegal.

Lemma is_YYYY_MM_DD_first c r :
  is_YYYY_MM_DD (String c r) = true -> is_digit c = true.
Proof.
  destruct r as [|c2 [|c3 [|c4 [|c5 [|c6 [|c7 [|c8 [|c9 [|c10 [|c11 r]]]]]]]]]];
    cbn [is_YYYY_MM_DD]; try discriminate.
  intros H. do 9 (apply andb_prop in H as [H _]). exact H.
Qed.

Lemma not_digit_first_shape c r :
  is_digit c = false -> is_YYYY_MM_DD (String c r) = false.
Proof.
  intros Hc. destruct (is_YYYY_MM_DD (String c r)) eqn:E; [|reflexivity].
  apply is_YYYY_MM_DD_first in E. congruence.
Qed.

(** A printed date of the shape [YYYY-MM-DD] is the canonical date of a
    legal day. *)
Lemma utc_date_string_iso t :
  is_YYYY_MM_DD (utc_date_string t) = true ->
  exists y m d,
    utc_date_string t = iso_date y m d
    /\ (0 <= y <= 9999)%Z /\ legal_date y m d = true.
Proof.
  unfold utc_date_string.
  pose proof (civil_from_days_legal (t / msPerDay)) as Hl.
  destruct (civil_from_days _) as [[y m] d].
  unfold year_string.
  destruct ((0 <=? y)%Z && (y <=? 9999)%Z) eqn:Hy.
  - intros _. exists y, m, d. split; [reflexivity|]. split; [|exact Hl].
    apply andb_prop in Hy as [H0 H9]. apply Z.leb_le in H0, H9. lia.
  - destruct (y <? 0)%Z; intros H; cbn [append] in H;
      rewrite not_digit_first_shape in H by reflexivity; discriminate.
Qed.

Lemma normalizeDate_again h h' dateStr r :
  normalizeDate h dateStr = Normal r ->
  is_YYYY_MM_DD r = true ->
  normalizeDate h' r = Normal r.
Proof.
  rewrite normalizeDate_parsed.
  destruct (Date_parse h dateStr) as [t|]; [|discriminate].
  intros [= <-] Hs.
  destruct (utc_date_string_iso t Hs) as (y & m & d & -> & Hy & Hl).
  now apply normalizeDate_canonical.
Qed.

(** X6.  [normalizeDate] is idempotent on its results of the shape
    [YYYY-MM-DD], and they do not depend on the host any more: whatever
    host produced the date, every host normalizes it to itself. *)
Theorem normalizeDate_idempotent (h h' : host) (dateStr r : string) :
  normalizeDate h dateStr = Normal r ->
  is_YYYY_MM_DD r = true ->
  normalizeDate h' r = Normal r.
Proof. apply normalizeDate_again. Qed.

Lemma normalizeDate_idempotent_witness :
  normalizeDate (V8.fixed_zone 3600000) "March 5, 2024" = Normal "2024-03-04"
  /\ normalizeDate (V8.fixed_zone (-18000000)) "2024-03-04"
     = Normal "2024-03-04".
Proof.
  split; [vm_compute; reflexivity|].
  apply (normalizeDate_idempotent (V8.fixed_zone 3600000)
           (V8.fixed_zone (-18000000)) "March 5, 2024" "2024-03-04").
  - vm_compute. reflexivity.
  - reflexivity.
Defined.

(** X7.  A canonical date [YYYY-MM-DD] of a year in 0..9999, naming a day
    of the calendar, normalizes to itself on every host: date-only strings
    of the Date Time String Format are read as UTC. *)
Theorem normalizeDate_canonical_fixed (h : host) (y m d : Z) :
  (0 <= y <= 9999)%Z -> legal_date y m d = true ->
  normalizeDate h (iso_date y m d) = Normal (iso_date y m d).
Proof. apply normalizeDate_canonical. Qed.

Lemma normalizeDate_canonical_fixed_witness :
  normalizeDate (V8.fixed_zone 3600000) (iso_date 2024 2 29)
  = Normal "2024-02-29".
Proof.
  apply (normalizeDate_canonical_fixed (V8.fixed_zone 3600000) 2024 2 29).
  - lia.
  - reflexivity.
Defined.

(** ** The Event schema and its hook *)

Lemma is_empty_app_unit a c b : is_empty (a ++ String c b) = false.
Proof. now destruct a. Qed.

Lemma normalizeDate_not_empty h dateStr v :
  normalizeDate h dateStr = Normal v -> is_empty v = false.
Proof.
  rewrite normalizeDate_parsed.
  destruct (Date_parse h dateStr) as [t|]; [|discriminate].
  intros [= <-]. unfold utc_date_string.
  destruct (civil_from_days _) as [[y m] d]. apply is_empty_app_unit.
Qed.

Lemma normalizeTime_not_empty timeStr v :
  normalizeTime timeStr = Normal v -> is_empty v = false.
Proof.
  intros H. destruct (normalizeTime_result _ _ H) as (hh & tail & -> & _).
  apply is_empty_app_unit.
Qed.

Lemma validate_set_slug v e : validate (set_slug v e) = validate e.
Proof. reflexivity. Qed.

Lemma validate_set_date v e :
  is_empty v = false -> validate e = [] -> validate (set_date v e) = [].
Proof.
  unfold validate. cbn [title description overview image venue location
    date time mode audience agenda organizer tags set_date].
  intros Hv H.
  repeat (apply app_eq_nil in H as [? H]).
  repeat match goal with H : _ = [] |- _ => rewrite H; clear H end.
  unfold required. now rewrite Hv.
Qed.

Lemma validate_set_time v e :
  is_empty v = false -> validate e = [] -> validate (set_time v e) = [].
Proof.
  unfold validate. cbn [title description overview image venue location
    date time mode audience agenda organizer tags set_time].
  intros Hv H.
  repeat (apply app_eq_nil in H as [? H]).
  repeat match goal with H : _ = [] |- _ => rewrite H; clear H end.
  unfold required. now rewrite Hv.
Qed.

Lemma pre_save_valid h d d' :
  EventModel.pre_save h d = Normal d' ->
  validate (EventModel.doc d) = [] -> validate (EventModel.doc d') = [].
Proof.
  rewrite pre_save_steps. cbv zeta. intros H Hv.
  set (d1 := if EventModel.isModified d "title" || isNew d
             then assign_slug (generateSlug (title (EventModel.doc d))) d
             else d) in *.
  assert (H1 : validate (EventModel.doc d1) = [])
    by (subst d1; destruct (_ || _); exact Hv).
  clearbody d1.
  destruct (EventModel.isModified d "date").
  - destruct (normalizeDate h (date (EventModel.doc d))) as [v|] eqn:Ed;
      [|discriminate].
    cbn [and_then] in H.
    pose proof (validate_set_date v _ (normalizeDate_not_empty _ _ _ Ed) H1)
      as H2.
    destruct (EventModel.isModified d "time").
    + destruct (normalizeTime _) as [v'|] eqn:Et; [|discriminate].
      cbn [and_then] in H. injection H as <-.
      exact (validate_set_time v' _ (normalizeTime_not_empty _ _ Et) H2).
    + cbn [and_then] in H. injection H as <-. exact H2.
  - cbn [and_then] in H.
    destruct (EventModel.isModified d "time").
    + destruct (normalizeTime _) as [v'|] eqn:Et; [|discriminate].
      cbn [and_then] in H. injection H as <-.
      exact (validate_set_time v' _ (normalizeTime_not_empty _ _ Et) H1).
    + cbn [and_then] in H. injection H as <-. exact H1.
Qed.

(** X8.  A document that [save] hands to the collection satisfies every
    field rule of the schema, before the hook and after it: the values the
    normalizers put into [date] and [time] are never empty, and the hook
    touches no other validated path. *)
Theorem save_keeps_valid (h : host) (d d' : EventModel.document) :
  save h d = Normal d' ->
  validate (EventModel.doc d) = [] /\ validate (EventModel.doc d') = [].
Proof.
  unfold save. destruct (validate (EventModel.doc d)) eqn:Hv; [|discriminate].
  intros H. split; [reflexivity|]. now apply (pre_save_valid h d d').
Qed.

Lemma save_keeps_valid_witness :
  exists d',
    save (V8.fixed_zone 0) (Samples.created (Samples.event_titled "Web Conf"))
    = Normal d'
    /\ validate (EventModel.doc d') = [].
Proof.
  eexists. split; [vm_compute; reflexivity|].
  apply (save_keeps_valid (V8.fixed_zone 0)
           (Samples.created (Samples.event_titled "Web Conf"))).
  vm_compute. reflexivity.
Defined.

Lemma empty_agenda_invalid e : agenda e = [] -> validate e <> [].
Proof.
  intros Ha H. unfold validate in H.
  repeat (apply app_eq_nil in H as [? H]).
  match goal with
  | H : check_nonempty "Agenda must have at least one item" _ = [] |- _ =>
      rewrite Ha in H; discriminate H
  end.
Qed.

Lemma empty_tags_invalid e : tags e = [] -> validate e <> [].
Proof.
  intros Ha H. unfold validate in H.
  repeat (apply app_eq_nil in H as [? H]).
  rewrite Ha in H. discriminate H.
Qed.

(** X9.  An event with an empty agenda or with no tag is rejected by [save]
    with a ValidationError, whatever its other fields hold; no normalizer
    runs then, since validation comes first. *)
Theorem save_rejects_empty_lists (h : host) (d : EventModel.document) :
  agenda (EventModel.doc d) = [] \/ tags (EventModel.doc d) = [] ->
  exists msg, save h d = Abrupt (JsError "ValidationError" msg).
Proof.
  intros H.
  assert (Hv : validate (EventModel.doc d) <> [])
    by (destruct H; [now apply empty_agenda_invalid
                    | now apply empty_tags_invalid]).
  unfold save. destruct (validate (EventModel.doc d)); [congruence | eauto].
Qed.

Lemma save_rejects_empty_lists_witness :
  exists msg,
    save (V8.fixed_zone 0)
      (Samples.created (Samples.event_with "65f0a1b2c3d4e5f601234561"
                          "web-conf" []))
    = Abrupt (JsError "ValidationError" msg).
Proof.
  apply (save_rejects_empty_lists (V8.fixed_zone 0)
           (Samples.created (Samples.event_with "65f0a1b2c3d4e5f601234561"
                               "web-conf" []))).
  right. reflexivity.
Defined.

(** An assignment leaves every path that is modified so. *)
Lemma isModified_mark_keeps p c d n e q :
  EventModel.isModified d q = true ->
  EventModel.isModified
    {| EventModel.doc := e; isNew := n;
       EventModel.modifiedPaths := mark p c d |} q = true.
Proof.
  intros H. destruct (String.eqb q p) eqn:E.
  - apply String.eqb_eq in E. subst q.
    now rewrite isModified_mark_same, H.
  - now rewrite isModified_mark_other.
Qed.

Ltac run_hook H :=
  rewrite pre_save_steps in H; cbv zeta in H;
  repeat first
    [ progress cbn [and_then orb] in H
    | match type of H with
      | context [EventModel.isModified ?d ?p] =>
          destruct (EventModel.isModified d p) eqn:?
      | context [isNew ?d] => destruct (isNew d) eqn:?
      | context [normalizeDate ?h ?s] => destruct (normalizeDate h s) eqn:?
      | context [normalizeTime ?s] => destruct (normalizeTime s) eqn:?
      end ];
  try discriminate H.

Lemma pre_save_other_fields h d d' :
  EventModel.pre_save h d = Normal d' ->
  let e := EventModel.doc d in
  let e' := EventModel.doc d' in
  (_id e' = _id e /\ title e' = title e /\ description e' = description e
   /\ overview e' = overview e /\ image e' = image e /\ venue e' = venue e
   /\ location e' = location e /\ mode e' = mode e
   /\ audience e' = audience e /\ agenda e' = agenda e
   /\ organizer e' = organizer e /\ tags e' = tags e)
  /\ isNew d' = isNew d
  /\ (EventModel.isModified d "title" || isNew d = false ->
      slug e' = slug e)
  /\ (EventModel.isModified d "date" = false -> date e' = date e)
  /\ (EventModel.isModified d "time" = false -> time e' = time e).
Proof.
  intros H. run_hook H; injection H as <-; cbn;
    repeat split; intros; first [reflexivity | easy].
Qed.

Lemma pre_save_slug_marked h d d' :
  EventModel.pre_save h d = Normal d' ->
  EventModel.isModified d "title" || isNew d = true ->
  EventModel.isModified d' "slug"
  = EventModel.isModified d "slug"
    || (isNew d
        || changed (slug (EventModel.doc d))
             (generateSlug (title (EventModel.doc d)))).
Proof.
  rewrite pre_save_steps. cbv zeta. intros H Hm. rewrite Hm in H.
  assert (Hs : EventModel.isModified
                 (assign_slug (generateSlug (title (EventModel.doc d))) d)
                 "slug"
               = EventModel.isModified d "slug"
                 || (isNew d
                     || changed (slug (EventModel.doc d))
                          (generateSlug (title (EventModel.doc d))))).
  { unfold assign_slug. cbv zeta. rewrite isModified_mark_same.
    cbn [slug set_slug]. now rewrite cast_slug_generateSlug. }
  destruct (EventModel.isModified d "date");
    [destruct (normalizeDate h _); [|discriminate]|];
    cbn [and_then] in H;
    (destruct (EventModel.isModified d "time");
     [destruct (normalizeTime _); [|discriminate]|]);
    cbn [and_then] in H; injection H as <-;
    unfold assign_time, assign_date;
    rewrite ?isModified_mark_other by reflexivity; exact Hs.
Qed.

Lemma pre_save_paths h d d' :
  EventModel.pre_save h d = Normal d' ->
  (forall p, String.eqb p "slug" = false -> String.eqb p "date" = false ->
             String.eqb p "time" = false ->
             EventModel.isModified d' p = EventModel.isModified d p)
  /\ (forall p, EventModel.isModified d p = true ->
                EventModel.isModified d' p = true)
  /\ (isNew d = true -> EventModel.isModified d' "slug" = true).
Proof.
  intros H.
  run_hook H; injection H as <-;
    unfold assign_time, assign_date, assign_slug; cbv zeta;
    (split; [|split]);
    try (intros p Hs Hd Ht;
         now rewrite ?isModified_mark_other by assumption);
    try (intros p Hp; now repeat apply isModified_mark_keeps);
    try discriminate;
    intros Hn; rewrite ?isModified_mark_other by reflexivity;
    rewrite isModified_mark_same;
    first [ rewrite Hn
          | match goal with Hn' : isNew d = true |- _ => rewrite Hn' end ];
    cbn [orb]; apply orb_true_r.
Qed.

(** X10.  The Event hook writes [slug], [date] and [time] and nothing else,
    and each of them only under its guard: [slug] when the title is
    modified or the document is new, [date] and [time] when they are
    modified.  No other path changes its modified status, and a slug that
    the hook changes on a path not yet modified is marked modified.  A
    write that touches none of the three goes through the hook unchanged,
    and no normalizer can fail it. *)
Theorem pre_save_frame (h : host) (d : EventModel.document) :
  (forall d', EventModel.pre_save h d = Normal d' ->
     let e := EventModel.doc d in
     let e' := EventModel.doc d' in
     (_id e' = _id e /\ title e' = title e /\ description e' = description e
      /\ overview e' = overview e /\ image e' = image e /\ venue e' = venue e
      /\ location e' = location e /\ mode e' = mode e
      /\ audience e' = audience e /\ agenda e' = agenda e
      /\ organizer e' = organizer e /\ tags e' = tags e)
     /\ isNew d' = isNew d
     /\ (forall p, p <> "slug" -> p <> "date" -> p <> "time" ->
           EventModel.isModified d' p = EventModel.isModified d p)
     /\ (EventModel.isModified d "slug" = false -> slug e' <> slug e ->
         EventModel.isModified d' "slug" = true)
     /\ (EventModel.isModified d "title" || isNew d = false ->
         slug e' = slug e)
     /\ (EventModel.isModified d "date" = false -> date e' = date e)
     /\ (EventModel.isModified d "time" = false -> time e' = time e))
  /\ (EventModel.isModified d "title" || isNew d = false ->
      EventModel.isModified d "date" = false ->
      EventModel.isModified d "time" = false ->
      EventModel.pre_save h d = Normal d).
Proof.
  split.
  - intros d' H. cbv zeta.
    destruct (pre_save_other_fields h d d' H) as (Hf & Hn & Hs & Hd & Ht).
    destruct (pre_save_paths h d d' H) as (Ho & _ & _).
    split; [exact Hf|]. split; [exact Hn|].
    split.
    { intros p Hps Hpd Hpt. now apply Ho; apply String.eqb_neq. }
    split; [|repeat split; assumption].
    intros Hu Hne.
    destruct (EventModel.isModified d "title" || isNew d) eqn:Hg;
      [|now elim Hne; apply Hs].
    rewrite (pre_save_slug_marked h d d' H Hg), Hu.
    rewrite (pre_save_slug h d d' H Hg) in Hne.
    unfold changed.
    replace (String.eqb (slug (EventModel.doc d))
               (generateSlug (title (EventModel.doc d)))) with false
      by (symmetry; apply String.eqb_neq; congruence).
    cbn [negb orb]. apply orb_true_r.
  - intros Hs Hd Ht. rewrite pre_save_steps. cbv zeta.
    now rewrite Hs, Hd, Ht.
Qed.

Lemma pre_save_frame_witness :
  EventModel.pre_save (V8.fixed_zone 0)
    {| EventModel.doc := Samples.web_conf; isNew := false;
       EventModel.modifiedPaths := ["venue"] |}
  = Normal {| EventModel.doc := Samples.web_conf; isNew := false;
              EventModel.modifiedPaths := ["venue"] |}
  /\ exists d',
       EventModel.pre_save (V8.fixed_zone 0) (MoreSamples.retitled "Web Day")
       = Normal d'
       /\ slug (EventModel.doc d') = "web-day"
       /\ EventModel.isModified d' "slug" = true
       /\ EventModel.isModified d' "venue" = false
       /\ venue (EventModel.doc d') = "Main hall".
Proof.
  split.
  - apply (proj2 (pre_save_frame (V8.fixed_zone 0)
                    {| EventModel.doc := Samples.web_conf; isNew := false;
                       EventModel.modifiedPaths := ["venue"] |}));
      reflexivity.
  - eexists. split; [vm_compute; reflexivity|].
    split; [reflexivity|].
    destruct (proj1 (pre_save_frame (V8.fixed_zone 0)
                       (MoreSamples.retitled "Web Day")) _ eq_refl)
      as (Hf & _ & Ho & Hm & _).
    split; [apply Hm; [reflexivity | discriminate]|].
    split; [rewrite Ho; [reflexivity | discriminate ..]|].
    destruct Hf as (_ & _ & _ & _ & _ & Hv & _). exact Hv.
Defined.

Lemma normalizeDate_error h dateStr e :
  normalizeDate h dateStr = Abrupt e -> e = invalid_date_format.
Proof.
  unfold normalizeDate. destruct (Date_parse h dateStr); [discriminate|].
  now intros [= <-].
Qed.

Lemma pre_save_time h d d' :
  EventModel.isModified d "time" = true ->
  EventModel.pre_save h d = Normal d' ->
  normalizeTime (time (EventModel.doc d)) = Normal (time (EventModel.doc d')).
Proof.
  intros Ht H. run_hook H; injection H as <-;
    cbn [time set_time set_date set_slug EventModel.doc
         assign_time assign_date assign_slug] in *;
    congruence.
Qed.

(** X11.  When the time of an event is set or changed, the time that the
    hook stores never has the shape [HH:MM]; normalized again it is
    rejected with the format error, so the hook fails on the stored
    document when its time counts as modified again. *)
Theorem pre_save_stored_time (h : host) (d d' : EventModel.document) :
  EventModel.isModified d "time" = true ->
  EventModel.pre_save h d = Normal d' ->
  is_HH_MM (time (EventModel.doc d')) = false
  /\ normalizeTime (time (EventModel.doc d')) = Abrupt invalid_time_format
  /\ forall h2 : host,
       exists e, EventModel.pre_save h2 d' = Abrupt e
                 /\ (e = invalid_time_format \/ e = invalid_date_format).
Proof.
  intros Ht H. pose proof (pre_save_time h d d' Ht H) as Hn.
  split; [exact (normalizeTime_never_HH_MM _ _ Hn)|].
  pose proof (normalizeTime_result_rejected _ _ Hn) as Hr.
  split; [exact Hr|].
  intros h2.
  assert (Hm : EventModel.isModified d' "time" = true)
    by (now apply (pre_save_paths h d d' H)).
  rewrite pre_save_steps. cbv zeta. rewrite Hm, Hr.
  destruct (EventModel.isModified d' "date").
  - destruct (normalizeDate h2 (date (EventModel.doc d'))) as [v|e] eqn:Ed;
      cbn [and_then].
    + exists invalid_time_format. split; [reflexivity | now left].
    + exists e. split; [reflexivity|]. right.
      now apply (normalizeDate_error h2 (date (EventModel.doc d'))).
  - cbn [and_then]. exists invalid_time_format.
    split; [reflexivity | now left].
Qed.

Lemma pre_save_stored_time_witness :
  exists d',
    EventModel.pre_save (V8.fixed_zone 0)
      (Samples.created (Samples.event_titled "Web Conf")) = Normal d'
    /\ is_HH_MM (time (EventModel.doc d')) = false.
Proof.
  eexists. split; [vm_compute; reflexivity|].
  apply (pre_save_stored_time (V8.fixed_zone 0)
           (Samples.created (Samples.event_titled "Web Conf"))).
  - reflexivity.
  - vm_compute. reflexivity.
Defined.



(** *** The slug of a title without letters or digits *)





(** ** The Booking schema *)

Lemma domain_match_split s : forall b,
  domain_match b s = true ->
  exists dm t,
    s = dm ++ "." ++ t
    /\ all domain_unit dm = true /\ b || negb (is_empty dm) = true
    /\ all is_alpha t = true /\ 2 <= String.length t.
Proof.
  induction s as [|c r IH]; intros b H.
  - simpl in H. rewrite andb_false_r in H. discriminate.
  - cbn [domain_match] in H. apply orb_prop in H as [H | H].
    + apply andb_prop in H as [Hb H]. cbn [tld_here] in H.
      apply andb_prop in H as [H Ha]. apply andb_prop in H as [Hc Hl].
      apply Ascii.eqb_eq in Hc. subst c. apply Nat.leb_le in Hl.
      exists "", r. rewrite Hb. repeat split; auto.
    + apply andb_prop in H as [Hc H].
      destruct (IH true H) as (dm & t & -> & Hdm & _ & Ht & Hl).
      exists (String c dm), t. simpl. rewrite Hc, Hdm, orb_true_r.
      repeat split; auto.
Qed.

Lemma domain_match_join dm t : forall b,
  all domain_unit dm = true -> b || negb (is_empty dm) = true ->
  all is_alpha t = true -> 2 <= String.length t ->
  domain_match b (dm ++ "." ++ t) = true.
Proof.
  induction dm as [|c r IH]; intros b Hdm Hb Ht Hl.
  - simpl in Hb. rewrite orb_false_r in Hb. subst b.
    cbn [append domain_match tld_here]. rewrite Ht.
    apply Nat.leb_le in Hl. now rewrite Hl.
  - simpl in Hdm. apply andb_prop in Hdm as [Hc Hr].
    pose proof (IH true Hr eq_refl Ht Hl) as E.
    cbn [append domain_match] in *. rewrite Hc, E. apply orb_true_r.
Qed.

Lemma at_not_local : local_unit "@" = false.
Proof. reflexivity. Qed.

Lemma local_match_split s : forall b,
  local_match b s = true ->
  exists l r,
    s = l ++ "@" ++ r
    /\ all local_unit l = true /\ b || negb (is_empty l) = true
    /\ domain_match false r = true.
Proof.
  induction s as [|c r IH]; intros b H; [discriminate|].
  cbn [local_match] in H. destruct (local_unit c) eqn:Hc.
  - destruct (IH true H) as (l & r' & -> & Hl & _ & Hd).
    exists (String c l), r'. simpl. rewrite Hc, Hl, orb_true_r.
    repeat split; auto.
  - apply andb_prop in H as [H Hd]. apply andb_prop in H as [Hb Ha].
    apply Ascii.eqb_eq in Ha. subst c.
    exists "", r. rewrite Hb. repeat split; auto.
Qed.

Lemma local_match_join l r : forall b,
  all local_unit l = true -> b || negb (is_empty l) = true ->
  domain_match false r = true ->
  local_match b (l ++ "@" ++ r) = true.
Proof.
  induction l as [|c l' IH]; intros b Hl Hb Hd.
  - simpl in Hb. rewrite orb_false_r in Hb. subst b.
    cbn [append local_match]. rewrite at_not_local, Hd. reflexivity.
  - simpl in Hl. apply andb_prop in Hl as [Hc Hr].
    cbn [append local_match]. rewrite Hc. now apply IH.
Qed.

Lemma emailRegex_test_shape_parts email :
  emailRegex_test email = true ->
  exists l dm t,
    email = l ++ "@" ++ dm ++ "." ++ t
    /\ is_empty l = false /\ all local_unit l = true
    /\ is_empty dm = false /\ all domain_unit dm = true
    /\ all is_alpha t = true /\ 2 <= String.length t.
Proof.
  unfold emailRegex_test. intros H.
  destruct (local_match_split _ _ H) as (l & r & -> & Hl & Hel & Hd).
  destruct (domain_match_split _ _ Hd) as (dm & t & -> & Hdm & Hed & Ht & Hn).
  exists l, dm, t. simpl in Hel, Hed.
  apply negb_true_iff in Hel, Hed. repeat split; auto.
Qed.

(** X13.  The email validator accepts exactly the addresses made of a
    non-empty local part over [[a-zA-Z0-9._%+-]], one [@], a non-empty
    domain over [[a-zA-Z0-9.-]], a dot, and a last label of at least two
    letters. *)
Theorem emailRegex_test_shape (email : string) :
  emailRegex_test email = true <->
  exists l dm t,
    email = l ++ "@" ++ dm ++ "." ++ t
    /\ is_empty l = false /\ all local_unit l = true
    /\ is_empty dm = false /\ all domain_unit dm = true
    /\ all is_alpha t = true /\ 2 <= String.length t.
Proof.
  split; [apply emailRegex_test_shape_parts|]. unfold emailRegex_test.
  intros (l & dm & t & -> & Hel & Hl & Hed & Hdm & Ht & Hn).
  apply local_match_join; [exact Hl | now rewrite Hel |].
  apply domain_match_join; [exact Hdm | now rewrite Hed | exact Ht | exact Hn].
Qed.

Lemma emailRegex_test_shape_witness :
  emailRegex_test ("ada.l" ++ "@" ++ "mail.example" ++ "." ++ "org") = true.
Proof.
  apply (proj2 (emailRegex_test_shape
                  ("ada.l" ++ "@" ++ "mail.example" ++ "." ++ "org"))).
  exists "ada.l", "mail.example", "org".
  repeat split; try reflexivity. simpl. lia.
Defined.

Lemma count_unit_app u a b :
  count_unit u (a ++ b) = count_unit u a + count_unit u b.
Proof. induction a as [|c r IH]; simpl; [reflexivity | rewrite IH; lia]. Qed.

Lemma count_unit_none (p : ascii -> bool) u s :
  p u = false -> all p s = true -> count_unit u s = 0.
Proof.
  intros Hu. induction s as [|c r IH]; simpl; [reflexivity|]. intros H.
  apply andb_prop in H as [Hc Hr]. rewrite (IH Hr).
  destruct (Ascii.eqb c u) eqn:E; [|reflexivity].
  apply Ascii.eqb_eq in E. congruence.
Qed.

Lemma local_unit_black c : local_unit c = true -> is_white c = false.
Proof. by_cases_on_unit c. Qed.

Lemma domain_unit_local c : domain_unit c = true -> local_unit c = true.
Proof. by_cases_on_unit c. Qed.

Lemma is_alpha_local c : is_alpha c = true -> local_unit c = true.
Proof. by_cases_on_unit c. Qed.

(** X14.  An address that the validator accepts holds exactly one [@] and
    no white space. *)
Theorem emailRegex_test_one_at (email : string) :
  emailRegex_test email = true ->
  count_unit "@" email = 1 /\ all black email = true.
Proof.
  intros H. apply emailRegex_test_shape_parts in H
    as (l & dm & t & -> & _ & Hl & _ & Hdm & Ht & _).
  pose proof (all_weaken _ _ _ domain_unit_local Hdm) as Hdm'.
  pose proof (all_weaken _ _ _ is_alpha_local Ht) as Ht'.
  split.
  - rewrite !count_unit_app.
    rewrite (count_unit_none local_unit "@" l eq_refl Hl),
      (count_unit_none local_unit "@" dm eq_refl Hdm'),
      (count_unit_none local_unit "@" t eq_refl Ht'). reflexivity.
  - assert (Hb : forall c, local_unit c = true -> black c = true)
      by (intros c Hc; unfold black; now rewrite (local_unit_black c Hc)).
    rewrite !all_app.
    rewrite (all_weaken _ _ _ Hb Hl), (all_weaken _ _ _ Hb Hdm'),
      (all_weaken _ _ _ Hb Ht'). reflexivity.
Qed.

Lemma emailRegex_test_one_at_witness :
  count_unit "@" "ada@example.org" = 1 /\ all black "ada@example.org" = true.
Proof.
  apply (emailRegex_test_one_at "ada@example.org"). reflexivity.
Defined.

Lemma lower_char_alpha c : is_alpha (lower_char c) = is_alpha c.
Proof. by_cases_on_unit c. Qed.

Lemma lower_char_local c : local_unit (lower_char c) = local_unit c.
Proof. by_cases_on_unit c. Qed.

Lemma lower_char_domain c : domain_unit (lower_char c) = domain_unit c.
Proof. by_cases_on_unit c. Qed.

Lemma lower_char_at c : Ascii.eqb (lower_char c) "@" = Ascii.eqb c "@".
Proof. by_cases_on_unit c. Qed.

Lemma lower_char_dot c : Ascii.eqb (lower_char c) "." = Ascii.eqb c ".".
Proof. by_cases_on_unit c. Qed.

Lemma all_alpha_toLowerCase s :
  all is_alpha (toLowerCase s) = all is_alpha s.
Proof.
  induction s as [|c r IH]; simpl; [reflexivity|].
  now rewrite lower_char_alpha, IH.
Qed.

Lemma tld_here_toLowerCase s : tld_here (toLowerCase s) = tld_here s.
Proof.
  destruct s as [|c r]; [reflexivity|]. cbn [toLowerCase tld_here].
  now rewrite lower_char_dot, length_toLowerCase, all_alpha_toLowerCase.
Qed.

Lemma domain_match_toLowerCase s : forall b,
  domain_match b (toLowerCase s) = domain_match b s.
Proof.
  induction s as [|c r IH]; intros b; [reflexivity|].
  change (toLowerCase (String c r))
    with (String (lower_char c) (toLowerCase r)).
  cbn [domain_match].
  change (String (lower_char c) (toLowerCase r))
    with (toLowerCase (String c r)).
  now rewrite tld_here_toLowerCase, lower_char_domain, IH.
Qed.

Lemma local_match_toLowerCase s : forall b,
  local_match b (toLowerCase s) = local_match b s.
Proof.
  induction s as [|c r IH]; intros b; [reflexivity|].
  cbn [toLowerCase local_match].
  now rewrite lower_char_local, lower_char_at, IH, domain_match_toLowerCase.
Qed.

Lemma accepted_units (q : ascii -> bool) email :
  q "@"%char = true -> (forall c, local_unit c = true -> q c = true) ->
  emailRegex_test email = true -> all q email = true.
Proof.
  intros Hat Hq H. apply emailRegex_test_shape_parts in H
    as (l & dm & t & -> & _ & Hl & _ & Hdm & Ht & _).
  pose proof (all_weaken _ _ _ domain_unit_local Hdm) as Hdm'.
  pose proof (all_weaken _ _ _ is_alpha_local Ht) as Ht'.
  assert (Hdot : q "."%char = true) by (now apply Hq).
  rewrite all_app. cbn [append all]. rewrite all_app. cbn [append all].
  now rewrite (all_weaken _ _ _ Hq Hl), (all_weaken _ _ _ Hq Hdm'),
    (all_weaken _ _ _ Hq Ht'), Hat, Hdot.
Qed.

Lemma local_unit_ascii c : local_unit c = true -> ascii_unit c = true.
Proof. by_cases_on_unit c. Qed.

Lemma trimStart_black s : all black s = true -> trimStart s = s.
Proof.
  destruct s as [|c r]; simpl; [reflexivity|]. intros H.
  apply andb_prop in H as [Hc _]. apply negb_true_iff in Hc. now rewrite Hc.
Qed.

Lemma trimEnd_black s : all black s = true -> trimEnd s = s.
Proof.
  induction s as [|c r IH]; simpl; [reflexivity|]. intros H.
  apply andb_prop in H as [Hc Hr]. apply negb_true_iff in Hc.
  now rewrite Hc, (IH Hr).
Qed.

(** X15.  Lower-casing never turns an accepted address into a rejected
    one.  An address that the validator accepts holds only code units of
    ASCII, its lower-cased form is accepted too, and the setters [trim] and
    [lowercase] store a value that passes the rules of the path. *)
Theorem emailRegex_test_lowercase (email : string) :
  emailRegex_test email = true ->
  all ascii_unit email = true
  /\ emailRegex_test (toLowerCase email) = true
  /\ check_email (cast_email email) = [].
Proof.
  intros H.
  assert (Hlow : emailRegex_test (toLowerCase email) = true)
    by (unfold emailRegex_test; now rewrite local_match_toLowerCase).
  split; [exact (accepted_units _ _ eq_refl local_unit_ascii H)|].
  split; [exact Hlow|].
  assert (Hb : all black (toLowerCase email) = true).
  { apply accepted_units; [reflexivity | | exact Hlow].
    intros c Hc. unfold black. now rewrite (local_unit_black c Hc). }
  unfold check_email, cast_email, trim.
  rewrite (trimStart_black _ Hb), (trimEnd_black _ Hb), Hlow.
  destruct (toLowerCase email); [discriminate Hlow | reflexivity].
Qed.

Lemma emailRegex_test_lowercase_witness :
  emailRegex_test "ada@example.org" = true
  /\ check_email (cast_email "Ada@Example.ORG") = [].
Proof.
  split; [reflexivity|].
  apply (emailRegex_test_lowercase "Ada@Example.ORG"). reflexivity.
Defined.

(** ** The Booking hook, again *)

Lemma booking_pre_save_run w b :
  let id := BookingModel.eventId (BookingModel.doc b) in
  run (BookingModel.pre_save w b) =
  if BookingModel.isModified b "eventId" then
    (Normal
       match query_failure w (FindById id) with
       | Some _ => BookingModel.NextError BookingModel.lookup_failed
       | None =>
           match find (fun e => String.eqb (_id e) id) (events w) with
           | Some _ => BookingModel.Next
           | None => BookingModel.NextError (BookingModel.event_missing id)
           end
       end,
     [Query (FindById id)])
  else (Normal BookingModel.Next, []).
Proof.
  cbv zeta. unfold run, BookingModel.pre_save.
  destruct (BookingModel.isModified b "eventId"); [|reflexivity].
  unfold bind, try_catch, findById, ask, bind, log, of_failure. simpl.
  destruct (query_failure w _); simpl; [reflexivity|].
  now destruct (find _ _).
Qed.

(** X16.  The Booking hook never throws: it ends by calling [next], with
    nothing or with an error whose name is ValidationError.  It lets a
    write that sets or changes [eventId] through only when the lookup
    completed and an Event of the collection has that identifier. *)
Theorem booking_pre_save_sound (w : world) (b : BookingModel.document) :
  exists r tr,
    run (BookingModel.pre_save w b) = (Normal r, tr)
    /\ (r = BookingModel.Next
        \/ exists msg,
             r = BookingModel.NextError (JsError "ValidationError" msg))
    /\ (BookingModel.isModified b "eventId" = true ->
        r = BookingModel.Next ->
        query_failure w
          (FindById (BookingModel.eventId (BookingModel.doc b))) = None
        /\ exists e, In e (events w)
                     /\ _id e = BookingModel.eventId (BookingModel.doc b)).
Proof.
  rewrite booking_pre_save_run. cbv zeta.
  destruct (BookingModel.isModified b "eventId").
  2:{ do 2 eexists. split; [reflexivity|]. split; [now left | discriminate]. }
  destruct (query_failure w _) as [e|].
  { do 2 eexists. split; [reflexivity|].
    split; [right; eexists; reflexivity | discriminate]. }
  destruct (find _ (events w)) as [e|] eqn:Hf.
  - do 2 eexists. split; [reflexivity|]. split; [now left|].
    intros _ _. split; [reflexivity|].
    apply find_some in Hf as [Hin He]. apply String.eqb_eq in He. eauto.
  - do 2 eexists. split; [reflexivity|].
    split; [right; eexists; reflexivity | discriminate].
Qed.

Lemma booking_pre_save_sound_witness :
  exists r tr,
    run (BookingModel.pre_save Samples.up
           (Samples.booking "65f0a1b2c3d4e5f601234562" ["eventId"]))
    = (Normal r, tr)
    /\ r = BookingModel.Next
    /\ exists e, In e (events Samples.up)
                 /\ _id e = "65f0a1b2c3d4e5f601234562".
Proof.
  destruct (booking_pre_save_sound Samples.up
              (Samples.booking "65f0a1b2c3d4e5f601234562" ["eventId"]))
    as (r & tr & Hrun & _ & Hok).
  exists r, tr. split; [exact Hrun|].
  assert (Hr : r = BookingModel.Next)
    by (vm_compute in Hrun; now injection Hrun as <- _).
  split; [exact Hr|]. apply (Hok eq_refl Hr).
Defined.

(** ** The similar-events action, again *)

Lemma shares_tag_sym x e : shares_tag x e -> shares_tag e x.
Proof. intros (t & H1 & H2). exists t. tauto. Qed.

(** X17.  Similarity is symmetric: when two slugs resolve (each looked up
    lower-cased and trimmed) and both queries by tags complete, the second
    event is among the events similar to the first exactly when the first
    is among those similar to the second. *)
Theorem getSimilarEventsBySlug_symmetric
    (w : world) (s1 s2 : string) (e1 e2 : IEvent) :
  resolves w s1 e1 -> resolves w s2 e2 ->
  query_failure w (FindSimilar (_id e1) (tags e1)) = None ->
  query_failure w (FindSimilar (_id e2) (tags e2)) = None ->
  exists l1 l2,
    fst (run (Actions.getSimilarEventsBySlug w s1)) = Normal l1
    /\ fst (run (Actions.getSimilarEventsBySlug w s2)) = Normal l2
    /\ (In e2 l1 <-> In e1 l2).
Proof.
  intros (Hc & Hq1 & Hf1) (_ & Hq2 & Hf2) Ht1 Ht2.
  rewrite !getSimilarEventsBySlug_value, Hc, Hq1, Hq2, Hf1, Hf2, Ht1, Ht2.
  do 2 eexists. split; [reflexivity|]. split; [reflexivity|].
  apply find_some in Hf1 as [Hin1 _]. apply find_some in Hf2 as [Hin2 _].
  rewrite !similar_filter_In. split.
  - intros (_ & Hne & Hs). repeat split; auto using shares_tag_sym.
  - intros (_ & Hne & Hs). repeat split; auto using shares_tag_sym.
Qed.

Lemma getSimilarEventsBySlug_symmetric_witness :
  exists l1 l2,
    fst (run (Actions.getSimilarEventsBySlug Samples.up "Web-Conf"))
    = Normal l1
    /\ fst (run (Actions.getSimilarEventsBySlug Samples.up " cloud-day"))
       = Normal l2
    /\ (In Samples.cloud_day l1 <-> In Samples.web_conf l2).
Proof.
  apply (getSimilarEventsBySlug_symmetric Samples.up "Web-Conf" " cloud-day"
           Samples.web_conf Samples.cloud_day);
    try reflexivity; repeat split.
Defined.

Lemma tags_in_nonempty wanted x : tags_in wanted x = true -> tags x <> [].
Proof.
  intros H. apply tags_in_spec in H as (t & Ht & _).
  intros E. now rewrite E in Ht.
Qed.

Lemma filter_none {A} (f : A -> bool) (l : list A) :
  (forall x, In x l -> f x = false) -> filter f l = [].
Proof.
  induction l as [|a l IH]; simpl; [reflexivity|]. intros H.
  rewrite (H a (or_introl eq_refl)). apply IH. intros x Hx. apply H. now right.
Qed.

(** X18.  Whatever the world and the slug, every event that
    [getSimilarEventsBySlug] returns is an event of the collection, carries
    a tag and is another event than the one the slug resolves to (looked
    up lower-cased and trimmed); and an event without tags has no similar
    event. *)
Theorem getSimilarEventsBySlug_results (w : world) (s : string) :
  exists l,
    fst (run (Actions.getSimilarEventsBySlug w s)) = Normal l
    /\ (forall x, In x l -> In x (events w) /\ tags x <> [])
    /\ (forall x, In x l -> exists e, resolves w s e /\ _id x <> _id e)
    /\ (forall e, resolves w s e -> tags e = [] -> l = []).
Proof.
  rewrite getSimilarEventsBySlug_value. eexists. split; [reflexivity|].
  destruct (connect_failure w) eqn:Hc;
    [split; [intros x [] | split; [intros x [] | reflexivity]]|].
  destruct (query_failure w (FindOneBySlug (looked_up s))) eqn:Hq;
    [split; [intros x [] | split; [intros x [] | reflexivity]]|].
  destruct (find _ (events w)) as [e|] eqn:Hf;
    [|split; [intros x [] | split; [intros x [] | reflexivity]]].
  destruct (query_failure w (FindSimilar _ _));
    [split; [intros x [] | split; [intros x [] | reflexivity]]|].
  split; [|split].
  - intros x Hx. apply filter_In in Hx as [Hin Hx].
    apply andb_prop in Hx as [_ Hx]. split; [exact Hin|].
    now apply (tags_in_nonempty (tags e)).
  - intros x Hx. apply similar_filter_In in Hx as (_ & Hne & _).
    exists e. split; [now repeat split | exact Hne].
  - intros e' (_ & _ & Hf') He. rewrite Hf in Hf'. injection Hf' as <-.
    apply filter_none. intros x _. unfold tags_in. rewrite He.
    apply andb_false_iff. right.
    apply not_true_is_false. intros H.
    apply existsb_exists in H as (t & _ & H). discriminate.
Qed.

Lemma getSimilarEventsBySlug_results_witness :
  fst (run (Actions.getSimilarEventsBySlug MoreSamples.legacy "Open-Day "))
  = Normal [].
Proof.
  destruct (getSimilarEventsBySlug_results MoreSamples.legacy "Open-Day ")
    as (l & Hl & _ & _ & Hnone).
  rewrite Hl. f_equal.
  apply (Hnone MoreSamples.untagged); [repeat split | reflexivity].
Defined.

(** What [getSimilarEventsBySlug] asks the storage. *)
Lemma getSimilarEventsBySlug_trace w s :
  snd (run (Actions.getSimilarEventsBySlug w s)) =
  Connect ::
  match connect_failure w with
  | Some _ => []
  | None =>
      Query (FindOneBySlug (looked_up s)) ::
      match query_failure w (FindOneBySlug (looked_up s)),
            find (fun x => String.eqb (slug x) (looked_up s)) (events w) with
      | None, Some e => [Query (FindSimilar (_id e) (tags e))]
      | _, _ => []
      end
  end.
Proof.
  unfold run, Actions.getSimilarEventsBySlug, try_catch, connectDB,
    findOne_slug, find_similar, ask, bind, log, of_failure.
  change (cast_slug s) with (looked_up s).
  simpl.
  destruct (connect_failure w); simpl; [reflexivity|].
  destruct (query_failure w (FindOneBySlug (looked_up s))); simpl;
    [reflexivity|].
  destruct (find _ (events w)) as [e|]; simpl; [|reflexivity].
  now destruct (query_failure w (FindSimilar _ _)).
Qed.

(** X19.  [getSimilarEventsBySlug] connects first, then asks for the event
    stored under the slug, lower-cased and trimmed, then for the events
    sharing its tags, and nothing else: it makes no query when the
    connection fails, and no query by tags when no event is resolved; when
    an event is resolved the query by tags names that event and its
    tags. *)
Theorem getSimilarEventsBySlug_calls (w : world) (s : string) :
  let tr := snd (run (Actions.getSimilarEventsBySlug w s)) in
  (exists queries, tr = Connect :: map Query queries
                   /\ List.length queries <= 2)
  /\ (connect_failure w <> None -> tr = [Connect])
  /\ (connect_failure w = None ->
      exists rest, tr = Connect :: Query (FindOneBySlug (looked_up s)) :: rest)
  /\ (unresolved w s -> forall id tg, ~ In (Query (FindSimilar id tg)) tr)
  /\ (forall e, resolves w s e ->
        tr = [Connect; Query (FindOneBySlug (looked_up s));
              Query (FindSimilar (_id e) (tags e))]).
Proof.
  cbv zeta. rewrite getSimilarEventsBySlug_trace.
  split; [|split; [|split; [|split]]].
  - destruct (connect_failure w); [exists []; split; [reflexivity | simpl; lia]|].
    destruct (query_failure w (FindOneBySlug (looked_up s)));
      [exists [FindOneBySlug (looked_up s)];
       split; [reflexivity | simpl; lia]|].
    destruct (find _ (events w)) as [e|].
    + exists [FindOneBySlug (looked_up s); FindSimilar (_id e) (tags e)].
      split; [reflexivity | simpl; lia].
    + exists [FindOneBySlug (looked_up s)]. split; [reflexivity | simpl; lia].
  - intros H. now destruct (connect_failure w).
  - intros ->. eauto.
  - intros H id tg Hin.
    assert (Hcase : connect_failure w <> None
                    \/ query_failure w (FindOneBySlug (looked_up s)) <> None
                    \/ find (fun x => String.eqb (slug x) (looked_up s))
                         (events w) = None).
    { destruct H as [H | [H | H]]; auto. right. right.
      apply find_absent. intros x Hx. apply String.eqb_neq. now apply H. }
    destruct (connect_failure w).
    { destruct Hin as [Hin | []]. discriminate. }
    destruct (query_failure w (FindOneBySlug (looked_up s))).
    { destruct Hin as [Hin | [Hin | []]]; discriminate. }
    destruct Hcase as [Hc | [Hc | Hc]]; try congruence.
    rewrite Hc in Hin. destruct Hin as [Hin | [Hin | []]]; discriminate.
  - intros e (Hc & Hq & Hf). now rewrite Hc, Hq, Hf.
Qed.

Lemma getSimilarEventsBySlug_calls_witness :
  snd (run (Actions.getSimilarEventsBySlug Samples.unconfigured "web-conf"))
  = [Connect]
  /\ snd (run (Actions.getSimilarEventsBySlug Samples.up "Web-Conf"))
     = [Connect; Query (FindOneBySlug "web-conf");
        Query (FindSimilar (_id Samples.web_conf) (tags Samples.web_conf))].
Proof.
  split.
  - apply (getSimilarEventsBySlug_calls Samples.unconfigured "web-conf").
    discriminate.
  - apply (getSimilarEventsBySlug_calls Samples.up "Web-Conf").
    repeat split.
Defined.

(** ** The route handler, again *)

Lemma trim_of_lower_empty s : toLowerCase s = "" -> s = "".
Proof. now destruct s. Qed.

Lemma guarded_slug_some p s :
  Route.guarded_slug p = Some s -> p = Route.PString s /\ trim s <> "".
Proof.
  destruct p as [|s'|]; simpl; try discriminate.
  destruct (is_empty s' || String.eqb (trim s') "") eqn:E; [discriminate|].
  intros [= ->]. split; [reflexivity|].
  apply orb_false_elim in E as [_ E]. now apply String.eqb_neq.
Qed.

(** X20.  [GET] always answers, with status 200, 400, 404 or 500.  The
    body carries an event exactly when the status is 200 and an error text
    only when it is 500.  An event that is returned is an event of the
    collection whose slug is the requested slug, trimmed and lower-cased,
    and that slug is not empty: an event stored with the empty slug is
    never served. *)
Theorem GET_responses (w : world) (p : Route.param) :
  exists resp,
    fst (run (Route.GET w p)) = Normal resp
    /\ In (Route.status resp) [200; 400; 404; 500]%Z
    /\ (Route.status resp = 200%Z <-> Route.event resp <> None)
    /\ (Route.error resp <> None -> Route.status resp = 500%Z)
    /\ (forall e, Route.event resp = Some e ->
          In e (events w)
          /\ slug e <> ""
          /\ exists s, p = Route.PString s /\ slug e = toLowerCase (trim s)).
Proof.
  rewrite GET_run.
  assert (Hfail : forall e,
    In (Route.status (failure_response e)) [200; 400; 404; 500]%Z
    /\ (Route.status (failure_response e) = 200%Z <->
        Route.event (failure_response e) <> None)
    /\ (Route.error (failure_response e) <> None ->
        Route.status (failure_response e) = 500%Z)
    /\ (forall e', Route.event (failure_response e) = Some e' ->
          In e' (events w)
          /\ slug e' <> ""
          /\ exists s, p = Route.PString s
                       /\ slug e' = toLowerCase (trim s))).
  { intros [n msg|]; simpl; [destruct (includes msg "MONGODB_URI")|]; simpl;
      (split; [tauto|]); (split; [split; [discriminate | congruence]|]);
      (split; [reflexivity | discriminate]). }
  destruct (connect_failure w) as [e|];
    [eexists; split; [reflexivity | apply Hfail]|].
  destruct (Route.guarded_slug p) as [s|] eqn:Hg.
  2:{ eexists. split; [reflexivity|]. simpl.
      split; [tauto|]. split; [split; [discriminate | congruence]|].
      split; [congruence | discriminate]. }
  cbv zeta.
  destruct (query_failure w _) as [e|];
    [eexists; split; [reflexivity | apply Hfail]|].
  eexists. split; [reflexivity|]. cbn [fst].
  destruct (guarded_slug_some p s Hg) as [-> Hne].
  destruct (find _ (events w)) as [ev|] eqn:Hf; simpl.
  - split; [tauto|]. split; [split; [discriminate | reflexivity]|].
    split; [congruence|]. intros e' [= <-].
    apply find_some in Hf as [Hin He]. apply String.eqb_eq in He.
    split; [exact Hin|]. split; [|eauto].
    rewrite He. intros E. apply trim_of_lower_empty in E. contradiction.
  - split; [tauto|]. split; [split; [discriminate | congruence]|].
    split; [congruence | discriminate].
Qed.

Lemma GET_responses_witness :
  exists resp,
    fst (run (Route.GET Samples.up (Route.PString "Cloud-Day"))) = Normal resp
    /\ Route.event resp = Some Samples.cloud_day
    /\ In Samples.cloud_day (events Samples.up)
    /\ slug Samples.cloud_day <> "".
Proof.
  destruct (GET_responses Samples.up (Route.PString "Cloud-Day"))
    as (resp & Hr & _ & _ & _ & He).
  exists resp. split; [exact Hr|].
  assert (Hev : Route.event resp = Some Samples.cloud_day)
    by (vm_compute in Hr; now injection Hr as <-).
  split; [exact Hev|].
  destruct (He _ Hev) as (Hin & Hne & _). now split.
Defined.

(** X21.  Two requests whose slugs differ only in the case of their letters
    and in the white space around them get the same answer and cause the
    same storage calls. *)
Theorem GET_case_and_margins (w : world) (s1 s2 : string) :
  toLowerCase (trim s1) = toLowerCase (trim s2) ->
  run (Route.GET w (Route.PString s1)) = run (Route.GET w (Route.PString s2)).
Proof.
  intros H. rewrite !GET_run.
  assert (Hb : forall s, Route.guarded_slug (Route.PString s)
                         = if String.eqb (trim s) "" then None else Some s).
  { intros s. simpl. destruct s as [|c r]; [reflexivity|]. reflexivity. }
  rewrite !Hb.
  assert (He : String.eqb (trim s1) "" = String.eqb (trim s2) "").
  { destruct (String.eqb (trim s1) "") eqn:E1, (String.eqb (trim s2) "") eqn:E2;
      try reflexivity.
    - apply String.eqb_eq in E1. rewrite E1 in H. simpl in H.
      symmetry in H. apply trim_of_lower_empty in H.
      apply String.eqb_neq in E2. contradiction.
    - apply String.eqb_eq in E2. rewrite E2 in H. simpl in H.
      apply trim_of_lower_empty in H.
      apply String.eqb_neq in E1. contradiction. }
  rewrite He. destruct (connect_failure w); [reflexivity|].
  destruct (String.eqb (trim s2) ""); [reflexivity|].
  cbv zeta. now rewrite H.
Qed.

Lemma GET_case_and_margins_witness :
  run (Route.GET Samples.up (Route.PString "  Web-Conf "))
  = run (Route.GET Samples.up (Route.PString "web-conf")).
Proof.
  apply (GET_case_and_margins Samples.up "  Web-Conf " "web-conf").
  reflexivity.
Defined.

Lemma sanitize_generateSlug t :
  toLowerCase (trim (generateSlug t)) = generateSlug t.
Proof.
  destruct (canonical_parts _ (generateSlug_canonical t)) as (Hall & _).
  now rewrite (trim_clean _ Hall), (toLowerCase_clean _ Hall).
Qed.

(** X22.  An event stored under the slug that [generateSlug] gives its
    title is served, with status 200, to the request for that slug,
    provided the slug is not empty and the storage answers; if the slug is
    empty the request is answered 400 and the event cannot be fetched. *)
Theorem GET_finds_generated_slug (w : world) (title : string) (e : IEvent) :
  resolves w (generateSlug title) e ->
  (generateSlug title <> "" ->
   fst (run (Route.GET w (Route.PString (generateSlug title))))
   = Normal (Route.json 200 "Event fetched successfully" None (Some e)))
  /\ (generateSlug title = "" ->
      fst (run (Route.GET w (Route.PString (generateSlug title))))
      = Normal (Route.json 400 "Invalid or missing slug parameter" None None)).
Proof.
  intros (Hc & Hq & Hf).
  change (looked_up (generateSlug title))
    with (cast_slug (generateSlug title)) in Hq, Hf.
  rewrite cast_slug_generateSlug in Hq, Hf.
  rewrite GET_run, Hc. split.
  - intros Hne.
    assert (Hg : Route.guarded_slug (Route.PString (generateSlug title))
                 = Some (generateSlug title)).
    { simpl. pose proof (sanitize_generateSlug title) as Hs.
      destruct (generateSlug title) as [|c r] eqn:E; [contradiction|].
      cbn [is_empty orb].
      destruct (String.eqb (trim (String c r)) "") eqn:Et; [|reflexivity].
      apply String.eqb_eq in Et. rewrite Et in Hs. discriminate. }
    rewrite Hg. cbv zeta. rewrite sanitize_generateSlug, Hq, Hf. reflexivity.
  - intros ->. reflexivity.
Qed.

Lemma GET_finds_generated_slug_witness :
  fst (run (Route.GET Samples.up (Route.PString (generateSlug "Web Conf!"))))
  = Normal (Route.json 200 "Event fetched successfully" None
              (Some Samples.web_conf)).
Proof.
  apply (GET_finds_generated_slug Samples.up "Web Conf!" Samples.web_conf).
  - repeat split.
  - discriminate.
Defined.
